(** * Ali intent engine: task queue, recurring tasks, scheduler loop and
      rule-based intent classifier ([src/ali_core/intent.py], class
      [AliIntent]).

    The methods of [AliIntent] are embedded as functions over an explicit
    engine state.  A Python exception is a result of its own that keeps the
    state reached when it was raised, because the mutations made before a
    [raise] stay in the object.  Clock readings ([datetime.now()]), random
    draws ([random.random()]) and the outcome of file writes are inputs of
    the functions that perform them. *)

From Stdlib Require Import Floats ZArith Ascii.
From stdpp Require Import gmap strings list sorting pretty.

Local Open Scope Z_scope.

(** ** Values *)

(** A naive [datetime]: microseconds since 0001-01-01T00:00:00 (a Monday),
    which makes [datetime - datetime] and comparison plain integer
    arithmetic. *)
Definition datetime := Z.

Definition usec_per_hour : Z := 3600000000.
Definition usec_per_day : Z := 86400000000.

(** [datetime.date()], as the day number. *)
Definition date (t : datetime) : Z := t `div` usec_per_day.
(** [datetime.weekday()]: 0 = Monday, 6 = Sunday. *)
Definition weekday (t : datetime) : Z := date t `mod` 7.
(** [datetime.hour]. *)
Definition hour (t : datetime) : Z := (t `div` usec_per_hour) `mod` 24.

(** The values a task dictionary holds (what [json.load] and the callers
    build), without floating-point fields.  [VIso t] is the string
    [t.isoformat()] of a naive datetime [t]; [datetime.fromisoformat] gives
    [t] back on it.  [VStr s] in a timestamp field is a string that does not
    read back as a naive datetime. *)
#[warnings="-register-all"]
Inductive value :=
| VNone
| VBool (b : bool)
| VInt (z : Z)
| VStr (s : string)
| VIso (t : datetime)
| VList (l : list value)
| VDict (d : gmap string value).

(** A task (one-shot or recurring), a behaviour record and a context are
    Python dictionaries with string keys. *)
Abbreviation dict := (gmap string value).

(** Python truth value of an object ([if x:], [x or y], [not x]). *)
Definition truthy (v : value) : bool :=
  match v with
  | VNone => false
  | VBool b => b
  | VInt z => negb (z =? 0)
  | VStr s => negb (String.eqb s "")
  | VIso _ => true
  | VList l => match l with [] => false | _ => true end
  | VDict d => negb (bool_decide (d = ∅))
  end.

(** [d.get(key, default)]. *)
Definition dict_get (d : dict) (key : string) (default : value) : value :=
  match d !! key with Some v => v | None => default end.

(** [key in d]. *)
Definition has_key (d : dict) (key : string) : bool :=
  bool_decide (is_Some (d !! key)).

(** [v == s] for a string literal [s]. *)
Definition eq_str (v : value) (s : string) : bool :=
  match v with VStr s' => String.eqb s' s | _ => false end.

(** [n == v] for an integer [n]; [bool] is a subclass of [int]. *)
Definition int_of_value (v : value) : option Z :=
  match v with
  | VInt z => Some z
  | VBool b => Some (if b then 1 else 0)
  | _ => None
  end.

Definition eq_int (n : Z) (v : value) : bool :=
  match int_of_value v with Some z => n =? z | None => false end.

(** ** Exceptions, effects and the engine state *)

Inductive exn := ValueError | TypeError | OverflowError | AttributeError | IndexError.

(** The message templates of the [logger] calls, with their arguments. *)
Inductive msg :=
| MExecuting (task_type : value)
| MReminder (content : value)
| MCollecting (target : value)
| MSending (content : value)
| MSystemTask (action : value)
| MPreparing (description : value)
| MExecuted (task_type : value)
| MExecError (task_type : value) (e : exn)
| MMissingType
| MMissingRecurringType
| MMissingRecurrence
| MAdded (task_type : value)
| MAddedRecurring (task_type : value)
| MAddError (e : exn)
| MAddRecurringError (e : exn)
| MRemoved (task_id : Z)
| MNotFound (task_id : Z)
| MRemoveError (e : exn)
| MSaved
| MSaveError
| MAnalyzing
| MIdentified (n : nat)
| MLoopStarted
| MLoopError (e : exn)
| MStopped
| MRecognized (primary : string) (confidence : float).

(** What the engine does to the outside: log records and [time.sleep]. *)
Inductive event :=
| LogInfo (m : msg)
| LogError (m : msg)
| LogDebug (m : msg)
| Sleep (seconds : Z).

(** An entry of [intent_patterns]. *)
Record pattern := {
  p_type : string;
  p_confidence : float;
  p_description : string;
  p_identified : datetime;
  p_pattern_data : value
}.

(** The content of the JSON file written by [save_intent_data]. *)
Record intent_data := {
  d_intent_patterns : gmap string pattern;
  d_behavior_history : list dict;
  d_task_queue : list dict;
  d_recurring_tasks : list dict;
  d_last_updated : datetime
}.

(** The mutable attributes of an [AliIntent] object, followed by the two
    outside resources its methods write: the events (log, sleeps) and the
    intent file.  [user_id] and [thresholds] are never assigned by the
    methods below and are left out.  Every entry of [task_queue] and
    [recurring_tasks] is a dictionary object of its own. *)
Record engine := {
  intent_patterns : gmap string pattern;
  behavior_history : list dict;
  task_queue : list dict;
  recurring_tasks : list dict;
  active : bool;
  events : list event;
  intent_file : option intent_data
}.

Definition set_intent_patterns (p : gmap string pattern) (s : engine) : engine :=
  {| intent_patterns := p; behavior_history := behavior_history s;
     task_queue := task_queue s; recurring_tasks := recurring_tasks s;
     active := active s; events := events s; intent_file := intent_file s |}.

Definition set_behavior_history (h : list dict) (s : engine) : engine :=
  {| intent_patterns := intent_patterns s; behavior_history := h;
     task_queue := task_queue s; recurring_tasks := recurring_tasks s;
     active := active s; events := events s; intent_file := intent_file s |}.

Definition set_task_queue (q : list dict) (s : engine) : engine :=
  {| intent_patterns := intent_patterns s; behavior_history := behavior_history s;
     task_queue := q; recurring_tasks := recurring_tasks s;
     active := active s; events := events s; intent_file := intent_file s |}.

Definition set_recurring_tasks (r : list dict) (s : engine) : engine :=
  {| intent_patterns := intent_patterns s; behavior_history := behavior_history s;
     task_queue := task_queue s; recurring_tasks := r;
     active := active s; events := events s; intent_file := intent_file s |}.

Definition set_active (b : bool) (s : engine) : engine :=
  {| intent_patterns := intent_patterns s; behavior_history := behavior_history s;
     task_queue := task_queue s; recurring_tasks := recurring_tasks s;
     active := b; events := events s; intent_file := intent_file s |}.

Definition set_intent_file (f : option intent_data) (s : engine) : engine :=
  {| intent_patterns := intent_patterns s; behavior_history := behavior_history s;
     task_queue := task_queue s; recurring_tasks := recurring_tasks s;
     active := active s; events := events s; intent_file := f |}.

Definition emit (e : event) (s : engine) : engine :=
  {| intent_patterns := intent_patterns s; behavior_history := behavior_history s;
     task_queue := task_queue s; recurring_tasks := recurring_tasks s;
     active := active s; events := events s ++ [e]; intent_file := intent_file s |}.

(** The attributes set by [__init__] when there is no intent file to load. *)
Definition init : engine :=
  {| intent_patterns := ∅; behavior_history := []; task_queue := [];
     recurring_tasks := []; active := true; events := []; intent_file := None |}.

(** The result of running a method: a returned value or a raised
    exception, each with the state it leaves. *)
Inductive result (A : Type) :=
| Ok (a : A) (s : engine)
| Raise (e : exn) (s : engine).
Arguments Ok {A} a s.
Arguments Raise {A} e s.

Definition final {A} (r : result A) : engine :=
  match r with Ok _ s => s | Raise _ s => s end.

Definition raised {A} (r : result A) : bool :=
  match r with Ok _ _ => false | Raise _ _ => true end.

Definition M (A : Type) : Type := engine -> result A.

Definition ret {A} (a : A) : M A := fun s => Ok a s.
Definition raise {A} (e : exn) : M A := fun s => Raise e s.
Definition bind {A B} (m : M A) (k : A -> M B) : M B :=
  fun s => match m s with Ok a s' => k a s' | Raise e s' => Raise e s' end.
Definition modify (f : engine -> engine) : M unit := fun s => Ok tt (f s).
Definition gets {A} (f : engine -> A) : M A := fun s => Ok (f s) s.
(** [try: body  except Exception as e: handler(e)]. *)
Definition try_except {A} (body : M A) (handler : exn -> M A) : M A :=
  fun s => match body s with Ok a s' => Ok a s' | Raise e s' => handler e s' end.
(** An operation that yields a value or raises. *)
Definition lift {A} (o : exn + A) : M A :=
  match o with inl e => raise e | inr a => ret a end.

Notation "x <~ m ;; k" := (bind m (fun x => k))
  (at level 100, m at next level, right associativity).
Notation "m ;;; k" := (bind m (fun _ => k))
  (at level 100, right associativity).

Definition log_info (m : msg) : M unit := modify (emit (LogInfo m)).
Definition log_error (m : msg) : M unit := modify (emit (LogError m)).
Definition log_debug (m : msg) : M unit := modify (emit (LogDebug m)).
Definition sleep (seconds : Z) : M unit := modify (emit (Sleep seconds)).

(** ** Dates read from task fields *)

(** [datetime.fromisoformat(v)]. *)
Definition fromisoformat (v : value) : exn + datetime :=
  match v with
  | VIso t => inr t
  | VStr _ => inl ValueError
  | _ => inl TypeError
  end.

(** [timedelta(hours=v)], in microseconds: an integer number of hours whose
    day count fits in [-999999999, 999999999]. *)
Definition timedelta_hours (v : value) : exn + Z :=
  match int_of_value v with
  | Some h =>
      if bool_decide (-999999999 <= h `div` 24 <= 999999999)
      then inr (h * usec_per_hour) else inl OverflowError
  | None => inl TypeError
  end.

(** [l[-n:]]. *)
Definition last_n {A} (n : nat) (l : list A) : list A :=
  drop (length l - n)%nat l.

(** [if len(l) > n: l = l[-n:]]. *)
Definition keep_last {A} (n : nat) (l : list A) : list A :=
  if (n <? length l)%nat then last_n n l else l.
Global Arguments keep_last : simpl never.

(** ** Behaviour ledger and persistence *)

(** [_record_behavior]. *)
Definition _record_behavior (behavior_data : dict) : M unit :=
  modify (fun s =>
    set_behavior_history (keep_last 200 (behavior_history s ++ [behavior_data])) s).

(** [save_intent_data]: [last_updated] is the clock reading, [write_ok]
    tells whether opening and writing the file succeeds. *)
Definition save_intent_data (last_updated : datetime) (write_ok : bool) : M bool :=
  modify (fun s => set_behavior_history (keep_last 100 (behavior_history s)) s) ;;;
  if write_ok then
    modify (fun s => set_intent_file (Some
      {| d_intent_patterns := intent_patterns s;
         d_behavior_history := behavior_history s;
         d_task_queue := task_queue s;
         d_recurring_tasks := recurring_tasks s;
         d_last_updated := last_updated |}) s) ;;;
    log_info MSaved ;;;
    ret true
  else
    log_error MSaveError ;;;
    ret false.

(** ** Task execution *)

Definition task_execution (task : dict) (timestamp : datetime) : dict :=
  <["type" := VStr "task_execution"]>
    (<["task" := VDict task]> (<["timestamp" := VIso timestamp]> ∅)).

(** [_execute_task]; [timestamp] is the clock reading put in the behaviour
    record. *)
Definition _execute_task (timestamp : datetime) (task : dict) : M bool :=
  let task_type := dict_get task "type" (VStr "unknown") in
  log_info (MExecuting task_type) ;;;
  try_except
    (_record_behavior (task_execution task timestamp) ;;;
     (if eq_str task_type "reminder" then
        log_info (MReminder (dict_get task "content" (VStr "No content")))
      else if eq_str task_type "data_collection" then
        log_info (MCollecting (dict_get task "target" (VStr "Unknown")))
      else if eq_str task_type "message" then
        log_info (MSending (dict_get task "content" (VStr "No content")))
      else if eq_str task_type "system_task" then
        log_info (MSystemTask (dict_get task "action" (VStr "Unknown")))
      else if eq_str task_type "content_preparation" then
        log_info (MPreparing (dict_get task "description" (VStr "Unknown")))
      else ret tt) ;;;
     log_info (MExecuted task_type) ;;;
     ret true)
    (fun e => log_error (MExecError task_type e) ;;; ret false).

(** ** Due-task sweep *)

(** [sorted(l, reverse=True)] on indices. *)
Definition sorted_reverse (l : list nat) : list nat :=
  merge_sort (H := λ x y, decide (y ≤ x)%nat) (λ x y : nat, (y ≤ x)%nat) l.

(** [for i in idx: del self.task_queue[i]]. *)
Fixpoint del_loop (idx : list nat) : M unit :=
  match idx with
  | [] => ret tt
  | i :: idx' =>
      q <~ gets task_queue ;;
      if (i <? length q)%nat
      then modify (set_task_queue (delete i q)) ;;; del_loop idx'
      else raise IndexError
  end.

Section Sweep.
(** [execute i task] is the call [self._execute_task(task)] made for the
    entry at index [i]. *)
Variable execute : nat -> dict -> M bool.
Variable now : datetime.

(** The body of [for i, task in enumerate(self.task_queue)], from index
    [i] on.  The queue is not written while the loop runs. *)
Fixpoint sweep_loop (i : nat) (q : list dict) (tasks_to_remove : list nat)
  : M (list nat) :=
  match q with
  | [] => ret tasks_to_remove
  | task :: q' =>
      match task !! "scheduled_time" with
      | Some v =>
          scheduled_time <~ lift (fromisoformat v) ;;
          if now >=? scheduled_time then
            success <~ execute i task ;;
            if success || truthy (dict_get task "remove_on_failure" (VBool true))
            then sweep_loop (S i) q' (tasks_to_remove ++ [i])
            else sweep_loop (S i) q' tasks_to_remove
          else sweep_loop (S i) q' tasks_to_remove
      | None =>
          success <~ execute i task ;;
          if success || truthy (dict_get task "remove_on_failure" (VBool true))
          then sweep_loop (S i) q' (tasks_to_remove ++ [i])
          else sweep_loop (S i) q' tasks_to_remove
      end
  end.

Definition process_task_queue_with : M unit :=
  q <~ gets task_queue ;;
  tasks_to_remove <~ sweep_loop 0 q [] ;;
  del_loop (sorted_reverse tasks_to_remove).
End Sweep.

(** [_process_task_queue]: [now] is the clock reading at its start, [clock i]
    the one made by [_execute_task] for the entry at index [i]. *)
Definition _process_task_queue (now : datetime) (clock : nat -> datetime) : M unit :=
  process_task_queue_with (fun i task => _execute_task (clock i) task) now.

(** ** Recurring-task sweep *)

(** The decision [should_execute] of one record; [draw] is the value of
    [random.random()], read only by a pattern-triggered record. *)
#[warnings="-inexact-float"]
Definition should_execute (now : datetime) (draw : float)
    (last_execution : option datetime) (task : dict) : exn + bool :=
  match task !! "interval_hours" with
  | Some h =>
      match timedelta_hours h with
      | inl e => inl e
      | inr interval =>
          inr (match last_execution with
               | None => true
               | Some last => now - last >=? interval
               end)
      end
  | None =>
      match task !! "day_of_week" with
      | Some target_day =>
          inr (if eq_int (weekday now) target_day then
                 if match last_execution with
                    | None => true
                    | Some last => negb (date last =? date now)
                    end
                 then match task !! "hour_of_day" with
                      | Some h => eq_int (hour now) h
                      | None => true
                      end
                 else false
               else false)
      | None =>
          match task !! "trigger_pattern" with
          | Some _ => inr (draw <? 0.05)%float
          | None => inr false
          end
      end
  end.

(** The body of [for task in self.recurring_tasks], from index [i] on; the
    record is updated in place. *)
Fixpoint recurring_loop (now : datetime) (draws : nat -> float)
    (i : nat) (n : nat) : M unit :=
  match n with
  | O => ret tt
  | S n' =>
      recs <~ gets recurring_tasks ;;
      match recs !! i with
      | None => ret tt
      | Some task =>
          if negb (truthy (dict_get task "active" (VBool true)))
          then recurring_loop now draws (S i) n'
          else
            last_execution <~
              match task !! "last_execution" with
              | Some v => t <~ lift (fromisoformat v) ;; ret (Some t)
              | None => ret None
              end ;;
            fire <~ lift (should_execute now (draws i) last_execution task) ;;
            (if fire : bool then
               let queue_task := <["scheduled_time" := VIso now]> task in
               modify (fun s => set_task_queue (task_queue s ++ [queue_task]) s) ;;;
               modify (fun s => set_recurring_tasks
                 (<[i := <["last_execution" := VIso now]> task]> (recurring_tasks s)) s)
             else ret tt) ;;;
            recurring_loop now draws (S i) n'
      end
  end.

(** [_check_recurring_tasks]: [draws i] is the random draw made for the
    record at index [i]. *)
Definition _check_recurring_tasks (now : datetime) (draws : nat -> float) : M unit :=
  recs <~ gets recurring_tasks ;;
  recurring_loop now draws 0 (length recs).

(** ** Pattern miner *)

(** The random draws and clock readings of one call of
    [_analyze_behavior_patterns], and the outcome of its file write. *)
Record analysis_env := {
  an_draw : float;
  an_time_draw : float;
  an_sequence_draw : float;
  an_identified : nat -> datetime;
  an_save_time : datetime;
  an_write_ok : bool
}.

(** A candidate returned by the two heuristics. *)
Record candidate := {
  c_type : string;
  c_confidence : float;
  c_description : string;
  c_data : value
}.

(** [_find_time_patterns]. *)
#[warnings="-inexact-float"]
Definition _find_time_patterns (draw : float) (behaviors : list dict) : list candidate :=
  if (draw <? 0.2)%float then
    [ {| c_type := "time_pattern"; c_confidence := 0.75%float;
         c_description := "Morning information check routine";
         c_data := VDict
           (<["day_period" := VStr "morning"]>
           (<["time_range" := VList [VInt 6; VInt 9]]>
           (<["actions" := VList [VStr "check_weather"; VStr "check_calendar";
                                   VStr "check_news"]]> ∅))) |} ]
  else [].

(** [_find_sequence_patterns]. *)
#[warnings="-inexact-float"]
Definition _find_sequence_patterns (draw : float) (behaviors : list dict) : list candidate :=
  if (draw <? 0.2)%float then
    [ {| c_type := "sequence_pattern"; c_confidence := 0.8%float;
         c_description := "Project research sequence";
         c_data := VDict
           (<["trigger" := VStr "research_start"]>
           (<["sequence" := VList [VStr "web_search"; VStr "document_creation";
                                    VStr "bookmark_saving"]]> ∅)) |} ]
  else [].

(** The loop [for pattern in time_patterns + sequence_patterns]. *)
Fixpoint add_patterns (identified : nat -> datetime) (k : nat)
    (found : list candidate) : M unit :=
  match found with
  | [] => ret tt
  | c :: found' =>
      modify (fun s =>
        let pattern_id := "pattern_" +:+ pretty (size (intent_patterns s) + 1)%nat in
        set_intent_patterns
          (<[pattern_id := {| p_type := c_type c; p_confidence := c_confidence c;
                              p_description := c_description c;
                              p_identified := identified k;
                              p_pattern_data := c_data c |}]> (intent_patterns s)) s) ;;;
      add_patterns identified (S k) found'
  end.

(** [_analyze_behavior_patterns]. *)
#[warnings="-inexact-float"]
Definition _analyze_behavior_patterns (env : analysis_env) : M unit :=
  if (0.017 <? an_draw env)%float then ret tt
  else
    log_info MAnalyzing ;;;
    recent_behavior <~ gets (fun s => last_n 50 (behavior_history s)) ;;
    let time_patterns := _find_time_patterns (an_time_draw env) recent_behavior in
    let sequence_patterns := _find_sequence_patterns (an_sequence_draw env) recent_behavior in
    add_patterns (an_identified env) 0 (time_patterns ++ sequence_patterns) ;;;
    match time_patterns ++ sequence_patterns with
    | [] => ret tt
    | _ =>
        log_info (MIdentified (length time_patterns + length sequence_patterns)) ;;;
        save_intent_data (an_save_time env) (an_write_ok env) ;;;
        ret tt
    end.

(** ** Scheduler loop *)

(** What one cycle reads from the clock, the random generator and the file
    system. *)
Record cycle_env := {
  c_now_queue : datetime;
  c_clock : nat -> datetime;
  c_now_recurring : datetime;
  c_draws : nat -> float;
  c_analysis : analysis_env;
  c_save_draw : float;
  c_save_time : datetime;
  c_write_ok : bool
}.

(** The [try] block of [_background_loop]. *)
#[warnings="-inexact-float"]
Definition cycle (env : cycle_env) : M unit :=
  _process_task_queue (c_now_queue env) (c_clock env) ;;;
  _check_recurring_tasks (c_now_recurring env) (c_draws env) ;;;
  _analyze_behavior_patterns (c_analysis env) ;;;
  (if (c_save_draw env <? 0.1)%float
   then save_intent_data (c_save_time env) (c_write_ok env) ;;; ret tt
   else ret tt) ;;;
  sleep 10.

(** One turn of [while self.active]: the test of the flag, then the [try]
    block with its [except Exception] handler.  The result tells whether
    the body ran ([false]: the loop is left). *)
Definition loop_iteration (env : cycle_env) : M bool :=
  running <~ gets active ;;
  if running : bool then
    try_except (cycle env)
      (fun e => log_error (MLoopError e) ;;; sleep 60) ;;;
    ret true
  else ret false.

(** The turns of the loop over the cycles [envs]; [others k] is what the
    other threads do to the engine while turn [k] sleeps.  The result tells
    whether the loop was left within these cycles. *)
Fixpoint loop_turns (others : nat -> engine -> engine) (k : nat)
    (envs : list cycle_env) : M bool :=
  match envs with
  | [] => ret false
  | env :: envs' =>
      ran <~ loop_iteration env ;;
      if ran : bool
      then modify (others k) ;;; loop_turns others (S k) envs'
      else ret true
  end.

(** [_background_loop], run for the cycles [envs]. *)
Definition _background_loop (others : nat -> engine -> engine)
    (envs : list cycle_env) : M bool :=
  log_info MLoopStarted ;;;
  loop_turns others 0 envs.

(** [stop_background_processing] (the [join] waits at most two seconds and
    changes nothing in the engine). *)
Definition stop_background_processing : M bool :=
  running <~ gets active ;;
  if negb running then ret true
  else
    modify (set_active false) ;;;
    log_info MStopped ;;;
    ret true.

(** ** Task store *)

(** [add_task]. *)
Definition add_task (task_data : dict) (created save_time : datetime)
    (write_ok : bool) : M bool :=
  try_except
    (if negb (has_key task_data "type") then
       log_error MMissingType ;;; ret false
     else
       let task_data := <["created" := VIso created]> task_data in
       modify (fun s => set_task_queue (task_queue s ++ [task_data]) s) ;;;
       log_info (MAdded (dict_get task_data "type" VNone)) ;;;
       save_intent_data save_time write_ok ;;;
       ret true)
    (fun e => log_error (MAddError e) ;;; ret false).

(** [add_recurring_task]. *)
Definition add_recurring_task (task_data : dict) (created save_time : datetime)
    (write_ok : bool) : M bool :=
  try_except
    (if negb (has_key task_data "type") then
       log_error MMissingRecurringType ;;; ret false
     else if negb (existsb (has_key task_data)
                     ["interval_hours"; "day_of_week"; "trigger_pattern"]) then
       log_error MMissingRecurrence ;;; ret false
     else
       let task_data := <["created" := VIso created]> task_data in
       let task_data := <["active" := VBool true]> task_data in
       modify (fun s => set_recurring_tasks (recurring_tasks s ++ [task_data]) s) ;;;
       log_info (MAddedRecurring (dict_get task_data "type" VNone)) ;;;
       save_intent_data save_time write_ok ;;;
       ret true)
    (fun e => log_error (MAddRecurringError e) ;;; ret false).

(** [remove_task]; [task_id] is a Python integer. *)
Definition remove_task (task_id : Z) (save_time : datetime)
    (write_ok : bool) : M bool :=
  try_except
    (q <~ gets task_queue ;;
     if (0 <=? task_id) && (task_id <? Z.of_nat (length q)) then
       modify (set_task_queue (delete (Z.to_nat task_id) q)) ;;;
       log_info (MRemoved task_id) ;;;
       save_intent_data save_time write_ok ;;;
       ret true
     else
       log_error (MNotFound task_id) ;;; ret false)
    (fun e => log_error (MRemoveError e) ;;; ret false).

(** [get_pending_tasks] and [get_recurring_tasks]. *)
Definition get_pending_tasks : M (list dict) := gets task_queue.
Definition get_recurring_tasks : M (list dict) := gets recurring_tasks.

(** ** Regular expressions ([re.search] on ASCII text) *)

(** Texts are ASCII strings: a character above 127 is no word character,
    digit or space here, and [lower] leaves it as it is. *)

Inductive regex :=
| Eps
| Chr (f : ascii -> bool)
| Seq (r1 r2 : regex)
| Alt (r1 r2 : regex)
| Star (r : regex)
| Group (n : nat) (r : regex)
| WordBoundary.

(** A position in the subject: the character before it, the text from it
    on, and the groups captured so far. *)
Record cursor := {
  before : option ascii;
  rest : list ascii;
  groups : gmap nat string
}.

Definition in_range (lo hi : string) (c : ascii) : bool :=
  match lo, hi with
  | String l _, String h _ =>
      (nat_of_ascii l <=? nat_of_ascii c)%nat && (nat_of_ascii c <=? nat_of_ascii h)%nat
  | _, _ => false
  end.

(** [\d], [\w] and [\s] on ASCII characters. *)
Definition is_digit (c : ascii) : bool := in_range "0" "9" c.
Definition is_alpha (c : ascii) : bool := in_range "a" "z" c || in_range "A" "Z" c.
Definition is_word (c : ascii) : bool := is_alpha c || is_digit c || Ascii.eqb c "_".
Definition is_space (c : ascii) : bool :=
  let n := nat_of_ascii c in
  ((9 <=? n)%nat && (n <=? 13)%nat) || ((28 <=? n)%nat && (n <=? 32)%nat).
(** [.] *)
Definition not_newline (c : ascii) : bool := negb (Ascii.eqb c "010").

(** [\b]: exactly one side of the position is a word character. *)
Definition at_boundary (cur : cursor) : bool :=
  xorb (match before cur with Some c => is_word c | None => false end)
       (match rest cur with c :: _ => is_word c | [] => false end).

(** Backtracking match of [r] at [cur], then of the continuation [k]:
    alternatives left to right, repetition greedy. *)
Fixpoint rmatch (r : regex) : cursor -> (cursor -> option (gmap nat string)) ->
    option (gmap nat string) :=
  match r with
  | Eps => fun cur k => k cur
  | Chr f => fun cur k =>
      match rest cur with
      | c :: cs =>
          if f c then k {| before := Some c; rest := cs; groups := groups cur |}
          else None
      | [] => None
      end
  | Seq r1 r2 => fun cur k => rmatch r1 cur (fun cur' => rmatch r2 cur' k)
  | Alt r1 r2 => fun cur k =>
      match rmatch r1 cur k with
      | Some g => Some g
      | None => rmatch r2 cur k
      end
  | Star r1 => fun cur k =>
      (fix iter (fuel : nat) (cur : cursor) : option (gmap nat string) :=
         match fuel with
         | O => k cur
         | S fuel' =>
             match rmatch r1 cur (fun cur' =>
                     if (length (rest cur') <? length (rest cur))%nat
                     then iter fuel' cur' else None) with
             | Some g => Some g
             | None => k cur
             end
         end) (length (rest cur)) cur
  | Group n r1 => fun cur k =>
      rmatch r1 cur (fun cur' =>
        let text := take (length (rest cur) - length (rest cur'))%nat (rest cur) in
        k {| before := before cur'; rest := rest cur';
             groups := <[n := String.string_of_list_ascii text]> (groups cur') |})
  | WordBoundary => fun cur k => if at_boundary cur then k cur else None
  end.

(** The leftmost match, trying every start position in turn. *)
Fixpoint search_from (r : regex) (prev : option ascii) (text : list ascii)
    : option (gmap nat string) :=
  match rmatch r {| before := prev; rest := text; groups := ∅ |}
               (fun cur => Some (groups cur)) with
  | Some g => Some g
  | None =>
      match text with
      | [] => None
      | c :: text' => search_from r (Some c) text'
      end
  end.

(** [re.search(r, text)]: the groups of the match, if any. *)
Definition re_search (r : regex) (text : string) : option (gmap nat string) :=
  search_from r None (String.list_ascii_of_string text).

(** The truth value of the result of [re.search]. *)
Definition matched (m : option (gmap nat string)) : bool :=
  match m with Some _ => true | None => false end.

(** [m.group(n)]. *)
Definition group (m : gmap nat string) (n : nat) : value :=
  match m !! n with Some s => VStr s | None => VNone end.

Fixpoint lit_chars (l : list ascii) : regex :=
  match l with
  | [] => Eps
  | [c] => Chr (Ascii.eqb c)
  | c :: l' => Seq (Chr (Ascii.eqb c)) (lit_chars l')
  end.
(** A literal word. *)
Definition lit (s : string) : regex := lit_chars (String.list_ascii_of_string s).
Definition plus (r : regex) : regex := Seq r (Star r).
Definition opt (r : regex) : regex := Alt r Eps.
Fixpoint alts (l : list regex) : regex :=
  match l with
  | [] => Eps
  | [r] => r
  | r :: l' => Alt r (alts l')
  end.
Definition words (n : nat) (l : list string) : regex := Group n (alts (lit <$> l)).
Definition bounded (r : regex) : regex := Seq WordBoundary (Seq r WordBoundary).

(** [str.lower()] on ASCII text. *)
Definition lower_char (c : ascii) : ascii :=
  if in_range "A" "Z" c then ascii_of_nat (nat_of_ascii c + 32) else c.
Definition lower (s : string) : string :=
  String.string_of_list_ascii (lower_char <$> String.list_ascii_of_string s).

(** The patterns of [_recognize_intent]. *)

(** [\b(remind|reminder|remember)\b] *)
Definition re_reminder : regex := bounded (words 1 ["remind"; "reminder"; "remember"]).
(** [at (\d+[:\d]*\s*[ap]\.?m\.?)] *)
Definition re_time : regex :=
  Seq (lit "at ")
    (Group 1
      (Seq (plus (Chr is_digit))
      (Seq (Star (Chr (fun c => Ascii.eqb c ":" || is_digit c)))
      (Seq (Star (Chr is_space))
      (Seq (Chr (fun c => Ascii.eqb c "a" || Ascii.eqb c "p"))
      (Seq (opt (lit "."))
      (Seq (lit "m") (opt (lit "."))))))))).
(** [\b(schedule|appointment|meeting|calendar)\b] *)
Definition re_calendar : regex :=
  bounded (words 1 ["schedule"; "appointment"; "meeting"; "calendar"]).
(** [on ([a-zA-Z]+ \d+)] *)
Definition re_date : regex :=
  Seq (lit "on ")
    (Group 1 (Seq (plus (Chr is_alpha)) (Seq (lit " ") (plus (Chr is_digit))))).
(** [\b(search|find|look up)\b] *)
Definition re_search_words : regex := bounded (words 1 ["search"; "find"; "look up"]).
(** [(search|find|look up)\s+(?:for\s+)?(.+)] *)
Definition re_query : regex :=
  Seq (words 1 ["search"; "find"; "look up"])
    (Seq (plus (Chr is_space))
    (Seq (opt (Seq (lit "for") (plus (Chr is_space))))
         (Group 2 (plus (Chr not_newline))))).
(** [\b(send|message|text|call)\b] *)
Definition re_communication : regex :=
  bounded (words 1 ["send"; "message"; "text"; "call"]).
(** [to\s+([a-zA-Z]+)] *)
Definition re_recipient : regex :=
  Seq (lit "to") (Seq (plus (Chr is_space)) (Group 1 (plus (Chr is_alpha)))).
(** [\b(help|explain|how do|how to)\b] *)
Definition re_help : regex := bounded (words 1 ["help"; "explain"; "how do"; "how to"]).

(** ** Intent classifier *)

Record Intent := {
  primary : string;
  confidence : float;
  entities : dict;
  context : dict
}.

Definition set_primary (p : string) (i : Intent) : Intent :=
  {| primary := p; confidence := confidence i; entities := entities i;
     context := context i |}.
Definition set_confidence (c : float) (i : Intent) : Intent :=
  {| primary := primary i; confidence := c; entities := entities i;
     context := context i |}.
Definition set_entity (key : string) (v : value) (i : Intent) : Intent :=
  {| primary := primary i; confidence := confidence i;
     entities := <[key := v]> (entities i); context := context i |}.

(** [min(1.0, x)]. *)
Definition min_one (x : float) : float := if (x <? 1.0)%float then x else 1.0%float.

(** [context.get("app") == name]. *)
Definition app_is (context : dict) (name : string) : bool :=
  eq_str (dict_get context "app" VNone) name.

(** [_refine_intent_with_context]; the intent dictionary it updates in
    place is returned. *)
#[warnings="-inexact-float"]
Definition _refine_intent_with_context (intent : Intent) (context : dict) : M Intent :=
  let intent :=
    if app_is context "messaging" && String.eqb (primary intent) "communication"
    then set_confidence (min_one (confidence intent + 0.1)%float) intent
    else intent in
  let intent :=
    if app_is context "calendar" && String.eqb (primary intent) "reminder"
    then set_confidence (min_one (confidence intent + 0.05)%float)
           (set_primary "calendar" intent)
    else intent in
  let intent :=
    match context !! "location" with
    | Some location =>
        if eq_str location "home" && String.eqb (primary intent) "reminder"
        then set_entity "location" (VStr "home") intent
        else intent
    | None => intent
    end in
  match context !! "time" with
  | Some (VDict time) =>
      match int_of_value (dict_get time "hour" (VInt 0)) with
      | Some current_hour =>
          if (5 <=? current_hour) && (current_hour <=? 9)
             && String.eqb (primary intent) "unknown"
          then ret (set_confidence 0.6%float (set_primary "morning_routine" intent))
          else ret intent
      | None => raise TypeError
      end
  | Some _ => raise AttributeError
  | None => ret intent
  end.

(** The rule chain of [_recognize_intent] on the lower-cased text. *)
#[warnings="-inexact-float"]
Definition match_rules (text : string) (intent : Intent) : Intent :=
  if matched (re_search re_reminder text) then
    let intent := set_confidence 0.8%float (set_primary "reminder" intent) in
    match re_search re_time text with
    | Some time_match => set_entity "time" (group time_match 1) intent
    | None => intent
    end
  else if matched (re_search re_calendar text) then
    let intent := set_confidence 0.75%float (set_primary "calendar" intent) in
    match re_search re_date text with
    | Some date_match => set_entity "date" (group date_match 1) intent
    | None => intent
    end
  else if matched (re_search re_search_words text) then
    let intent := set_confidence 0.7%float (set_primary "search" intent) in
    match re_search re_query text with
    | Some query_match => set_entity "query" (group query_match 2) intent
    | None => intent
    end
  else if matched (re_search re_communication text) then
    let intent := set_confidence 0.8%float (set_primary "communication" intent) in
    match re_search re_recipient text with
    | Some recipient_match => set_entity "recipient" (group recipient_match 1) intent
    | None => intent
    end
  else if matched (re_search re_help text) then
    set_confidence 0.9%float (set_primary "help" intent)
  else intent.

(** [context or {}] and [if context:]. *)
Definition context_or_empty (context : option dict) : dict :=
  match context with Some c => c | None => ∅ end.
Definition context_given (context : option dict) : bool :=
  match context with Some c => negb (bool_decide (c = ∅)) | None => false end.

(** [_recognize_intent]. *)
Definition _recognize_intent (text : string) (context : option dict) : M Intent :=
  let intent :=
    {| primary := "unknown"; confidence := 0.5%float; entities := ∅;
       context := context_or_empty context |} in
  let intent := match_rules (lower text) intent in
  intent <~ (if context_given context
             then _refine_intent_with_context intent (context_or_empty context)
             else ret intent) ;;
  log_debug (MRecognized (primary intent) (confidence intent)) ;;;
  ret intent.

(** ** Task suggestions *)

(** A suggestion: the dictionary with the keys [task], [confidence] and
    [type]. *)
Record suggestion := {
  sg_task : string;
  sg_confidence : float;
  sg_type : string
}.

(** What a call of [get_task_suggestions] gives: the list returned, and
    whether its [except] branch logged an error. *)
Record suggestions_result := {
  sg_returned : list suggestion;
  sg_error_logged : bool
}.

(** The confidence thresholds set by [__init__]. *)
#[warnings="-inexact-float"]
Definition initial_thresholds : gmap string float :=
  <["auto_complete" := 0.8%float]>
  (<["suggestion" := 0.6%float]>
  (<["prediction" := 0.7%float]>
  (<["routine" := 0.75%float]> ∅))).

(** The list [suggestions] of [get_task_suggestions] before the filter, at
    the clock reading [now]. *)
#[warnings="-inexact-float"]
Definition suggestion_candidates (now : datetime) : list suggestion :=
  let hour := hour now in
  let weekday := weekday now in
  let suggestions := [] in
  let suggestions :=
    if (6 <=? hour) && (hour <=? 9) then
      suggestions ++
      [ {| sg_task := "Check today's weather"; sg_confidence := 0.7%float;
           sg_type := "information" |};
        {| sg_task := "Review calendar for today"; sg_confidence := 0.75%float;
           sg_type := "productivity" |} ]
    else if (17 <=? hour) && (hour <=? 22) then
      suggestions ++
      [ {| sg_task := "Review tomorrow's schedule"; sg_confidence := 0.65%float;
           sg_type := "planning" |} ]
    else suggestions in
  if 5 <=? weekday then
    suggestions ++
    [ {| sg_task := "Check entertainment options"; sg_confidence := 0.6%float;
         sg_type := "leisure" |} ]
  else suggestions.

(** [get_task_suggestions]; [thresholds] is the dictionary
    [self.thresholds], with floating-point values as [__init__] sets them
    and as the intent file holds them.  The comprehension reads
    [thresholds["suggestion"]] once for each candidate, so that a missing
    key raises (and the [except] branch logs the error and returns the
    empty list) only when there is a candidate. *)
Definition get_task_suggestions (now : datetime) (thresholds : gmap string float)
    : suggestions_result :=
  match suggestion_candidates now with
  | [] => {| sg_returned := []; sg_error_logged := false |}
  | suggestions =>
      match thresholds !! "suggestion" with
      | Some threshold =>
          {| sg_returned :=
               List.filter (fun s => (threshold <=? sg_confidence s)%float) suggestions;
             sg_error_logged := false |}
      | None => {| sg_returned := []; sg_error_logged := true |}
      end
  end.

(** * Specification vocabulary *)

(** The indices, counted from [i], of the marked entries. *)
Fixpoint positions (i : nat) (marks : list bool) : list nat :=
  match marks with
  | [] => []
  | b :: marks' => (if b then [i] else []) ++ positions (S i) marks'
  end.

(** The entries of [q] that are not marked. *)
Fixpoint keep_unmarked {A} (marks : list bool) (q : list A) : list A :=
  match marks, q with
  | b :: marks', t :: q' => (if b then [] else [t]) ++ keep_unmarked marks' q'
  | _, _ => q
  end.

(** An event that is a log record at level [info]. *)
Definition is_info (e : event) : Prop := ∃ m, e = LogInfo m.

(** What [_execute_task] leaves of a state: the behaviour record appended
    (the history cut to its last 200 entries) and log lines [lines]. *)
Definition executed_state (timestamp : datetime) (task : dict)
    (lines : list event) (s : engine) : engine :=
  {| intent_patterns := intent_patterns s;
     behavior_history :=
       keep_last 200 (behavior_history s ++ [task_execution task timestamp]);
     task_queue := task_queue s;
     recurring_tasks := recurring_tasks s;
     active := active s;
     events := events s ++ lines;
     intent_file := intent_file s |}.

(** The file content written for a state. *)
Definition snapshot (last_updated : datetime) (s : engine) : intent_data :=
  {| d_intent_patterns := intent_patterns s;
     d_behavior_history := behavior_history s;
     d_task_queue := task_queue s;
     d_recurring_tasks := recurring_tasks s;
     d_last_updated := last_updated |}.

(** What [save_intent_data] leaves of a state: the history cut to its last
    100 entries and, when the write succeeds, the file holding the state. *)
Definition saved_state (last_updated : datetime) (write_ok : bool) (s : engine) : engine :=
  let s1 := set_behavior_history (keep_last 100 (behavior_history s)) s in
  if write_ok
  then emit (LogInfo MSaved) (set_intent_file (Some (snapshot last_updated s1)) s1)
  else emit (LogError MSaveError) s1.

(** The task as [add_task] queues it. *)
Definition created_task (created : datetime) (task_data : dict) : dict :=
  <["created" := VIso created]> task_data.

(** The record as [add_recurring_task] stores it. *)
Definition created_recurring (created : datetime) (task_data : dict) : dict :=
  <["active" := VBool true]> (<["created" := VIso created]> task_data).

(** The three recurrence discriminators. *)
Definition recurrence_keys : list string :=
  ["interval_hours"; "day_of_week"; "trigger_pattern"].

(** How many of them a task has. *)
Definition recurrence_count (task_data : dict) : nat :=
  length (filter (λ key, is_Some (task_data !! key)) recurrence_keys).

(** The timestamp of a task reads back: [scheduled_time] is absent or the
    ISO form of a datetime (the [timestamp|absent] of the data model). *)
Definition well_timed (task : dict) : Prop :=
  match task !! "scheduled_time" with
  | None | Some (VIso _) => True
  | Some _ => False
  end.

Global Instance well_timed_dec task : Decision (well_timed task).
Proof. unfold well_timed. repeat case_match; apply _. Defined.

(** A task is due when it has no [scheduled_time] or one that is not after
    [now]. *)
Definition due (now : datetime) (task : dict) : bool :=
  match task !! "scheduled_time" with
  | None => true
  | Some (VIso t) => bool_decide (t ≤ now)
  | Some _ => false
  end.

(** The [remove_on_failure] flag of a task, [True] when absent. *)
Definition remove_on_failure (task : dict) : bool :=
  truthy (dict_get task "remove_on_failure" (VBool true)).

(** The entries of the queue, with their indices counted from [i], that are
    due. *)
Fixpoint due_entries (now : datetime) (i : nat) (q : list dict) : list (nat * dict) :=
  match q with
  | [] => []
  | task :: q' =>
      (if due now task then [(i, task)] else []) ++ due_entries now (S i) q'
  end.

(** Which entries the sweep marks for removal, when the execution of the
    entry at index [i] returns [succeeds i task]. *)
Fixpoint sweep_marks (now : datetime) (succeeds : nat → dict → bool)
    (i : nat) (q : list dict) : list bool :=
  match q with
  | [] => []
  | task :: q' =>
      (due now task && (succeeds i task || remove_on_failure task))
        :: sweep_marks now succeeds (S i) q'
  end.

(** The state after the executions of the entries [entries] in turn, when
    an execution changes the engine by [effect]. *)
Definition run_entries (effect : nat → dict → engine → engine)
    (entries : list (nat * dict)) (s : engine) : engine :=
  foldl (λ s it, effect it.1 it.2 s) s entries.

(** The state after executing the entries [entries] in turn. *)
Definition run_executions (clock : nat → datetime) (entries : list (nat * dict))
    (s : engine) : engine :=
  run_entries (λ i task s, final (_execute_task (clock i) task s)) entries s.

(** Three queued tasks: a reminder due at once, a message due at 100, and a
    backup due at 5 that asks to be kept on failure. *)
Definition queue_a : dict := <["type" := VStr "reminder"]> ∅.
Definition queue_b : dict :=
  <["type" := VStr "message"]> (<["scheduled_time" := VIso 100]> ∅).
Definition queue_c : dict :=
  <["type" := VStr "backup"]> (<["scheduled_time" := VIso 5]>
    (<["remove_on_failure" := VBool false]> ∅)).

(** The state after the sweeps [sweeps], each given by its clock readings. *)
Definition after_sweeps (sweeps : list (datetime * (nat → datetime)))
    (s : engine) : engine :=
  foldl (λ s sw, final (_process_task_queue sw.1 sw.2 s)) s sweeps.

(** The tasks executed by the sweeps [sweeps], in order. *)
Fixpoint sweeps_executed (sweeps : list (datetime * (nat → datetime)))
    (s : engine) : list dict :=
  match sweeps with
  | [] => []
  | sw :: sweeps' =>
      (due_entries sw.1 0 (task_queue s)).*2 ++
      sweeps_executed sweeps' (final (_process_task_queue sw.1 sw.2 s))
  end.

(** The decision of the loop body of [_check_recurring_tasks] for one
    record: an inactive record never fires; otherwise the last execution is
    read back and [should_execute] decides. *)
Definition fires (now : datetime) (draw : float) (task : dict) : exn + bool :=
  if negb (truthy (dict_get task "active" (VBool true))) then inr false
  else
    match task !! "last_execution" with
    | Some v =>
        match fromisoformat v with
        | inl e => inl e
        | inr last => should_execute now draw (Some last) task
        end
    | None => should_execute now draw None task
    end.

(** Which records fire, up to the first one whose fields make the loop
    raise. *)
Fixpoint sweep_fired (now : datetime) (draws : nat → float) (i : nat)
    (recs : list dict) : list bool :=
  match recs with
  | [] => []
  | task :: recs' =>
      match fires now (draws i) task with
      | inl _ => []
      | inr b => b :: sweep_fired now draws (S i) recs'
      end
  end.

(** The exception that stops the sweep, if any. *)
Fixpoint sweep_raises (now : datetime) (draws : nat → float) (i : nat)
    (recs : list dict) : option exn :=
  match recs with
  | [] => None
  | task :: recs' =>
      match fires now (draws i) task with
      | inl e => Some e
      | inr _ => sweep_raises now draws (S i) recs'
      end
  end.

(** [f] applied to the marked entries, the others and those past the marks
    left as they are. *)
Fixpoint update_marked {A} (f : A → A) (marks : list bool) (q : list A) : list A :=
  match marks, q with
  | b :: marks', t :: q' => (if b then f t else t) :: update_marked f marks' q'
  | _, _ => q
  end.

(** The marked entries. *)
Fixpoint keep_marked {A} (marks : list bool) (q : list A) : list A :=
  match marks, q with
  | b :: marks', t :: q' => (if b then [t] else []) ++ keep_marked marks' q'
  | _, _ => []
  end.

(** The record after it fired at [now], and the copy queued for it. *)
Definition stamp_last_execution (now : datetime) (task : dict) : dict :=
  <["last_execution" := VIso now]> task.
Definition queue_copy (now : datetime) (task : dict) : dict :=
  <["scheduled_time" := VIso now]> task.

(** What the sweep leaves of a state in which the records marked [marks]
    fired. *)
Definition fired_state (now : datetime) (marks : list bool) (s : engine) : engine :=
  set_recurring_tasks
    (update_marked (stamp_last_execution now) marks (recurring_tasks s))
    (set_task_queue
       (task_queue s ++ (queue_copy now <$> keep_marked marks (recurring_tasks s))) s).

(** An interval record added by [add_recurring_task]. *)
Definition daily_cleanup : dict :=
  <["type" := VStr "system_task"]>
    (<["action" := VStr "cleanup_logs"]> (<["interval_hours" := VInt 24]> ∅)).

(** A record with a type and two recurrence discriminators. *)
Definition weekly_and_hourly : dict :=
  <["type" := VStr "system_task"]>
    (<["interval_hours" := VInt 24]> (<["day_of_week" := VInt 0]> ∅)).

(** A record without any recurrence discriminator. *)
Definition no_recurrence : dict := <["type" := VStr "system_task"]> ∅.

(** A computation that never writes the [active] flag, whether it returns
    or raises. *)
Definition keeps_active {A} (m : M A) : Prop :=
  ∀ s, active (final (m s)) = active s.

(** The state a turn of the loop leaves when the flag is set: that of the
    cycle, or after an exception the error line and the long sleep. *)
Definition turn_state (env : cycle_env) (s : engine) : engine :=
  match cycle env s with
  | Ok _ s1 => s1
  | Raise e s1 => emit (Sleep 60) (emit (LogError (MLoopError e)) s1)
  end.

(** An event that is a log record, not a sleep. *)
Definition is_log (e : event) : Prop :=
  match e with Sleep _ => False | _ => True end.

(** A computation that adds log records to the events and never sleeps. *)
Definition logs_only {A} (m : M A) : Prop :=
  ∀ s, ∃ lines, events (final (m s)) = events s ++ lines ∧ Forall is_log lines.

(** The part of a cycle before its sleep. *)
#[warnings="-inexact-float"]
Definition cycle_work (env : cycle_env) : M unit :=
  _process_task_queue (c_now_queue env) (c_clock env) ;;;
  _check_recurring_tasks (c_now_recurring env) (c_draws env) ;;;
  _analyze_behavior_patterns (c_analysis env) ;;;
  (if (c_save_draw env <? 0.1)%float
   then save_intent_data (c_save_time env) (c_write_ok env) ;;; ret tt
   else ret tt).

(** A cycle environment in which nothing is mined or saved. *)
#[warnings="-inexact-float"]
Definition quiet_analysis : analysis_env :=
  {| an_draw := 0.5%float; an_time_draw := 0.5%float; an_sequence_draw := 0.5%float;
     an_identified := λ _, 0; an_save_time := 0; an_write_ok := true |}.
#[warnings="-inexact-float"]
Definition quiet_cycle (now : datetime) : cycle_env :=
  {| c_now_queue := now; c_clock := λ _, now; c_now_recurring := now;
     c_draws := λ _, 0.5%float; c_analysis := quiet_analysis;
     c_save_draw := 0.5%float; c_save_time := now; c_write_ok := true |}.

(** A queued task whose [scheduled_time] does not read back. *)
Definition queue_bad : dict :=
  <["type" := VStr "reminder"]> (<["scheduled_time" := VStr "tomorrow"]> ∅).

(** [l2] is what is left of [l1] after dropping some of its oldest
    entries. *)
Definition newest_of {A} (l2 l1 : list A) : Prop := ∃ dropped, l1 = dropped ++ l2.

(** A computation that keeps the property [P] of the engine, whether it
    returns or raises. *)
Definition preserves {A} (P : engine → Prop) (m : M A) : Prop :=
  ∀ s, P s → P (final (m s)).

(** The history holds at most 200 entries. *)
Definition history_bounded (s : engine) : Prop :=
  (length (behavior_history s) ≤ 200)%nat.

(** A record whose [interval_hours] is no number. *)
Definition record_bad : dict :=
  <["type" := VStr "system_task"]> (<["interval_hours" := VStr "daily"]> ∅).

(** A deactivated record whose other fields are unreadable. *)
Definition record_off : dict := <["active" := VBool false]> record_bad.

(** [now.hour == task["hour_of_day"]] when the task names an hour. *)
Definition hour_matches (now : datetime) (task : dict) : bool :=
  match task !! "hour_of_day" with
  | Some h => eq_int (hour now) h
  | None => true
  end.

(** A weekly record for Mondays. *)
Definition monday_report : dict :=
  <["type" := VStr "content_preparation"]> (<["day_of_week" := VInt 0]> ∅).

(** The identifier given to the [k]-th pattern. *)
Definition pattern_name (k : nat) : string := "pattern_" +:+ pretty k.

(** Every identifier in use is [pattern_k] for some [k] from 1 to the
    number of patterns: what a map filled by the miner alone looks like. *)
Definition numbered (m : gmap string pattern) : Prop :=
  ∀ key, is_Some (m !! key) → ∃ k, (1 ≤ k ≤ size m)%nat ∧ key = pattern_name k.

(** An analysis in which both heuristics find their pattern. *)
Definition finding_analysis : analysis_env :=
  {| an_draw := 0%float; an_time_draw := 0%float; an_sequence_draw := 0%float;
     an_identified := λ k, Z.of_nat k; an_save_time := 0; an_write_ok := true |}.

(** The labels and confidences that [match_rules] sets. *)
#[warnings="-inexact-float"]
Definition rule_outcomes : list (string * float) :=
  [("unknown", 0.5%float); ("reminder", 0.8%float); ("calendar", 0.75%float);
   ("search", 0.7%float); ("communication", 0.8%float); ("help", 0.9%float)].

(** Those that a context can turn them into. *)
#[warnings="-inexact-float"]
Definition refined_outcomes : list (string * float) :=
  [("communication", 0.9%float); ("calendar", 0.8500000000000001%float);
   ("morning_routine", 0.6%float)].

(** The exception raised on the [time] entry [v] of a context, if any: the
    entry must have a [get] method (be a dictionary) and its [hour], 0 when
    absent, must compare with an integer. *)
Definition time_entry_error (v : value) : option exn :=
  match v with
  | VDict time =>
      match int_of_value (dict_get time "hour" (VInt 0)) with
      | Some _ => None
      | None => Some TypeError
      end
  | _ => Some AttributeError
  end.

(** The exception raised on a context, if any. *)
Definition context_error (context : option dict) : option exn :=
  match context with
  | Some c =>
      match c !! "time" with
      | Some v => time_entry_error v
      | None => None
      end
  | None => None
  end.

(** The hours and days for which there is a candidate. *)
Definition suggestion_time (now : datetime) : Prop :=
  6 ≤ hour now ≤ 9 ∨ 17 ≤ hour now ≤ 22 ∨ 5 ≤ weekday now.

(** * Properties *)

(** ** Deleting marked positions in descending order *)

Lemma positions_ge i marks : Forall (λ j, i ≤ j)%nat (positions i marks).
Proof.
  revert i. induction marks as [|b marks IH]; intros i; simpl; [constructor|].
  apply Forall_app. split.
  - destruct b; repeat constructor.
  - eapply Forall_impl; [apply IH|]. simpl. lia.
Qed.

Lemma positions_ascending i marks : StronglySorted lt (positions i marks).
Proof.
  revert i. induction marks as [|b marks IH]; intros i; simpl; [constructor|].
  destruct b; simpl; [|apply IH].
  constructor; [apply IH|].
  eapply Forall_impl; [apply (positions_ge (S i))|]. simpl. lia.
Qed.

Lemma reverse_descending (l : list nat) :
  StronglySorted lt l → StronglySorted (λ x y : nat, (y ≤ x)%nat) (reverse l).
Proof.
  induction 1 as [|x l Hl IH Hx]; [constructor|].
  rewrite reverse_cons. apply StronglySorted_app. split_and!.
  - intros x1 x2 H1 H2. apply list_elem_of_singleton in H2 as ->.
    rewrite elem_of_reverse in H1. rewrite Forall_forall in Hx.
    specialize (Hx _ H1). lia.
  - done.
  - repeat constructor.
Qed.

(** On an ascending list of indices [sorted(..., reverse=True)] is the
    list read backwards. *)
Lemma sorted_reverse_ascending (l : list nat) :
  StronglySorted lt l → sorted_reverse l = reverse l.
Proof.
  intros Hl. unfold sorted_reverse.
  assert (Transitive (λ x y : nat, (y ≤ x)%nat)) by (intros x y z; lia).
  assert (Total (λ x y : nat, (y ≤ x)%nat)) by (intros x y; lia).
  assert (AntiSymm (=) (λ x y : nat, (y ≤ x)%nat)) by (intros x y; lia).
  apply (StronglySorted_unique (λ x y : nat, (y ≤ x)%nat)).
  - apply StronglySorted_merge_sort; done.
  - by apply reverse_descending.
  - rewrite merge_sort_Permutation. by rewrite reverse_Permutation.
Qed.

Lemma del_loop_app idx1 idx2 s :
  del_loop (idx1 ++ idx2) s =
  match del_loop idx1 s with
  | Ok _ s' => del_loop idx2 s'
  | Raise e s' => Raise e s'
  end.
Proof.
  revert s. induction idx1 as [|i idx1 IH]; intros s; simpl; [done|].
  unfold bind, gets. simpl. destruct (i <? length (task_queue s))%nat; [|done].
  unfold modify. simpl. apply IH.
Qed.

(** Deleting the marked positions of [q], highest first, behind an
    untouched prefix [pre]. *)
Lemma del_loop_marked marks : ∀ (pre q : list dict) s,
  length marks = length q →
  task_queue s = pre ++ q →
  del_loop (reverse (positions (length pre) marks)) s =
  Ok tt (set_task_queue (pre ++ keep_unmarked marks q) s).
Proof.
  induction marks as [|b marks IH]; intros pre q s Hlen Hq.
  - simpl. unfold ret. rewrite <- Hq. by destruct s.
  - destruct q as [|t q]; [done|]. simpl in Hlen.
    cbn [positions keep_unmarked]. rewrite reverse_app, del_loop_app.
    replace (S (length pre)) with (length (pre ++ [t])) by (rewrite length_app; simpl; lia).
    rewrite (IH (pre ++ [t]) q s); [|lia|by rewrite Hq, <- app_assoc].
    destruct b; simpl.
    + unfold bind, gets, modify, ret. simpl.
      rewrite <- app_assoc. simpl.
      replace (length pre <? length (pre ++ t :: keep_unmarked marks q))%nat with true.
      2:{ symmetry. apply Nat.ltb_lt. rewrite length_app. simpl. lia. }
      by rewrite delete_middle.
    + unfold ret. by rewrite <- app_assoc.
Qed.

(** ** Task execution *)

(** [_execute_task] returns [True] on every task and every state, after
    appending its record to the behaviour history; it writes nothing else
    of the engine but log lines, none of them an error. *)
Lemma execute_task_returns timestamp task s :
  ∃ lines, Forall is_info lines ∧
    _execute_task timestamp task s = Ok true (executed_state timestamp task lines s).
Proof.
  unfold _execute_task, try_except, bind, log_info, modify, ret, _record_behavior,
    executed_state.
  simpl.
  repeat match goal with
  | |- context [if eq_str ?v ?x then _ else _] => destruct (eq_str v x)
  end; unfold emit, set_behavior_history; simpl; rewrite <- ?app_assoc; simpl.
  all: eexists; split; [|reflexivity]; repeat constructor; unfold is_info; eauto.
Qed.

Lemma execute_task_ok timestamp task s :
  _execute_task timestamp task s = Ok true (final (_execute_task timestamp task s)).
Proof. destruct (execute_task_returns timestamp task s) as (l & _ & ->). done. Qed.

Lemma execute_task_queue timestamp task s :
  task_queue (final (_execute_task timestamp task s)) = task_queue s.
Proof. destruct (execute_task_returns timestamp task s) as (l & _ & ->). done. Qed.

(** ** Persistence and the task store as functions of the state *)

Lemma save_intent_data_run last_updated write_ok s :
  save_intent_data last_updated write_ok s =
  Ok write_ok (saved_state last_updated write_ok s).
Proof. unfold save_intent_data, saved_state. by destruct write_ok. Qed.

Lemma saved_state_queue last_updated write_ok s :
  task_queue (saved_state last_updated write_ok s) = task_queue s.
Proof. unfold saved_state. by destruct write_ok. Qed.

Lemma saved_state_recurring last_updated write_ok s :
  recurring_tasks (saved_state last_updated write_ok s) = recurring_tasks s.
Proof. unfold saved_state. by destruct write_ok. Qed.

Lemma saved_state_file last_updated s :
  intent_file (saved_state last_updated true s) =
  Some (snapshot last_updated (saved_state last_updated true s)).
Proof. done. Qed.

Lemma has_key_true (d : dict) key : has_key d key = true ↔ is_Some (d !! key).
Proof. unfold has_key. apply bool_decide_eq_true. Qed.

Lemma has_key_false (d : dict) key : has_key d key = false ↔ d !! key = None.
Proof.
  unfold has_key. rewrite bool_decide_eq_false. rewrite eq_None_not_Some. done.
Qed.

Lemma add_task_run task_data created save_time write_ok s :
  add_task task_data created save_time write_ok s =
  if has_key task_data "type" then
    Ok true
      (saved_state save_time write_ok
         (emit (LogInfo (MAdded (dict_get (created_task created task_data) "type" VNone)))
            (set_task_queue (task_queue s ++ [created_task created task_data]) s)))
  else Ok false (emit (LogError MMissingType) s).
Proof.
  unfold add_task, try_except, bind.
  destruct (has_key task_data "type"); simpl; [|done].
  by rewrite save_intent_data_run.
Qed.

Lemma add_recurring_task_run task_data created save_time write_ok s :
  add_recurring_task task_data created save_time write_ok s =
  if has_key task_data "type" then
    if existsb (has_key task_data) recurrence_keys then
      Ok true
        (saved_state save_time write_ok
           (emit (LogInfo (MAddedRecurring
                     (dict_get (created_recurring created task_data) "type" VNone)))
              (set_recurring_tasks
                 (recurring_tasks s ++ [created_recurring created task_data]) s)))
    else Ok false (emit (LogError MMissingRecurrence) s)
  else Ok false (emit (LogError MMissingRecurringType) s).
Proof.
  unfold add_recurring_task, try_except, bind, recurrence_keys.
  destruct (has_key task_data "type"); simpl; [|done].
  destruct (has_key task_data "interval_hours" || _); simpl; [|done].
  by rewrite save_intent_data_run.
Qed.

Lemma remove_task_run task_id save_time write_ok s :
  remove_task task_id save_time write_ok s =
  if (0 <=? task_id) && (task_id <? Z.of_nat (length (task_queue s))) then
    Ok true
      (saved_state save_time write_ok
         (emit (LogInfo (MRemoved task_id))
            (set_task_queue (delete (Z.to_nat task_id) (task_queue s)) s)))
  else Ok false (emit (LogError (MNotFound task_id)) s).
Proof.
  unfold remove_task, try_except, bind, gets.
  destruct ((0 <=? task_id) && _); simpl; [|done].
  by rewrite save_intent_data_run.
Qed.

(** ** The due-task sweep *)

Lemma due_absent now task : task !! "scheduled_time" = None → due now task = true.
Proof. unfold due. by intros ->. Qed.

Lemma due_timed now task t :
  task !! "scheduled_time" = Some (VIso t) → (due now task = true ↔ t ≤ now).
Proof. unfold due. intros ->. apply bool_decide_eq_true. Qed.

Lemma due_entries_lookup now q : ∀ i j task,
  (j, task) ∈ due_entries now i q ↔
  (i ≤ j)%nat ∧ q !! (j - i)%nat = Some task ∧ due now task = true.
Proof.
  induction q as [|t q IH]; intros i j task; simpl.
  - rewrite elem_of_nil. split; [done|]. by intros (_ & ? & _).
  - rewrite elem_of_app, IH. split.
    + intros [H|(Hle & Hq & Hd)].
      * destruct (due now t) eqn:Hdue; [|by apply elem_of_nil in H].
        apply list_elem_of_singleton in H. simplify_eq.
        rewrite Nat.sub_diag. done.
      * split; [lia|]. replace (j - i)%nat with (S (j - S i)) by lia. done.
    + intros (Hle & Hq & Hd). destruct (decide (i = j)) as [->|Hne].
      * rewrite Nat.sub_diag in Hq. simpl in Hq. simplify_eq.
        left. rewrite Hd. by apply list_elem_of_singleton.
      * right. split; [lia|]. replace (j - i)%nat with (S (j - S i)) in Hq by lia.
        done.
Qed.

Lemma due_entries_indices now q : ∀ i,
  (due_entries now i q).*1 = positions i (due now <$> q).
Proof.
  induction q as [|t q IH]; intros i; simpl; [done|].
  rewrite fmap_app, IH. by destruct (due now t).
Qed.

Lemma NoDup_positions i marks : NoDup (positions i marks).
Proof.
  pose proof (positions_ascending i marks) as Hsorted.
  induction Hsorted as [|x l Hl IH Hx]; constructor; [|done].
  intros Hin. rewrite Forall_forall in Hx. specialize (Hx _ Hin). lia.
Qed.

Lemma keep_unmarked_filter now (q : list dict) :
  keep_unmarked (due now <$> q) q = filter (λ task, due now task = false) q.
Proof.
  induction q as [|t q IH]; [done|].
  rewrite fmap_cons. cbn [keep_unmarked]. rewrite IH.
  destruct (due now t) eqn:Hd; simpl.
  - rewrite filter_cons_False; [done|]. by rewrite Hd.
  - by rewrite filter_cons_True.
Qed.

Section SweepFacts.
Variable execute : nat → dict → M bool.
Variable now : datetime.
(** The outcome of an execution: its result and what it does to the
    engine, which leaves the queue alone. *)
Variable succeeds : nat → dict → bool.
Variable effect : nat → dict → engine → engine.
Hypothesis execute_returns :
  ∀ i task s, execute i task s = Ok (succeeds i task) (effect i task s).
Hypothesis effect_queue :
  ∀ i task s, task_queue (effect i task s) = task_queue s.

Lemma run_entries_queue entries s :
  task_queue (run_entries effect entries s) = task_queue s.
Proof.
  revert s. induction entries as [|[i t] entries IH]; intros s; simpl; [done|].
  unfold run_entries in *. simpl. by rewrite IH, effect_queue.
Qed.

Lemma sweep_marks_length i q : length (sweep_marks now succeeds i q) = length q.
Proof. revert i. induction q; intros; simpl; auto. Qed.

Lemma sweep_marks_lookup q : ∀ i j task,
  q !! j = Some task →
  sweep_marks now succeeds i q !! j =
    Some (due now task && (succeeds (i + j) task || remove_on_failure task)).
Proof.
  induction q as [|t q IH]; intros i j task Hq; [done|].
  destruct j as [|j]; simpl in *.
  - simplify_eq. by rewrite Nat.add_0_r.
  - rewrite (IH (S i) j task Hq). do 4 f_equal. lia.
Qed.

Lemma sweep_loop_run q : ∀ i acc s,
  Forall well_timed q →
  sweep_loop execute now i q acc s =
  Ok (acc ++ positions i (sweep_marks now succeeds i q))
     (run_entries effect (due_entries now i q) s).
Proof.
  induction q as [|t q IH]; intros i acc s Hq.
  - simpl. unfold ret. by rewrite app_nil_r.
  - apply Forall_cons in Hq as [Ht Hq].
    cbn [sweep_loop sweep_marks positions due_entries].
    unfold well_timed in Ht. unfold due, remove_on_failure.
    destruct (t !! "scheduled_time") as [v|] eqn:Hv.
    + destruct v; try done. unfold bind at 1. simpl.
      rewrite Z.geb_leb. destruct (Z.leb_spec t0 now) as [Hle|Hgt].
      * rewrite bool_decide_eq_true_2 by done. simpl.
        unfold bind. rewrite execute_returns.
        destruct (succeeds i t || _) eqn:Hs; simpl; rewrite IH by done.
        -- by rewrite <- app_assoc.
        -- done.
      * rewrite bool_decide_eq_false_2 by lia. simpl. by rewrite IH.
    + simpl. unfold bind. rewrite execute_returns.
      destruct (succeeds i t || _) eqn:Hs; simpl; rewrite IH by done.
      * by rewrite <- app_assoc.
      * done.
Qed.

(** The sweep over a queue of well-timed tasks: every due entry is
    executed, in queue order, and the marked entries are deleted. *)
Lemma process_task_queue_with_run s :
  Forall well_timed (task_queue s) →
  process_task_queue_with execute now s =
  Ok tt (set_task_queue
           (keep_unmarked (sweep_marks now succeeds 0 (task_queue s)) (task_queue s))
           (run_entries effect (due_entries now 0 (task_queue s)) s)).
Proof.
  intros Hq. unfold process_task_queue_with, bind, gets.
  rewrite sweep_loop_run by done. simpl.
  rewrite sorted_reverse_ascending by apply positions_ascending.
  rewrite (del_loop_marked _ [] (task_queue s)); simpl.
  - done.
  - apply sweep_marks_length.
  - apply run_entries_queue.
Qed.
End SweepFacts.

Lemma sweep_marks_all_succeed now (q : list dict) : ∀ i,
  sweep_marks now (λ _ _, true) i q = due now <$> q.
Proof.
  induction q as [|t q IH]; intros i; simpl; [done|].
  by rewrite IH, andb_true_r.
Qed.

Lemma process_task_queue_run now clock s :
  Forall well_timed (task_queue s) →
  _process_task_queue now clock s =
  Ok tt (set_task_queue (keep_unmarked (due now <$> task_queue s) (task_queue s))
           (run_executions clock (due_entries now 0 (task_queue s)) s)).
Proof.
  intros Hq. unfold _process_task_queue.
  rewrite (process_task_queue_with_run _ now (λ _ _, true)
             (λ i task s, final (_execute_task (clock i) task s))).
  - by rewrite sweep_marks_all_succeed.
  - intros. apply execute_task_ok.
  - intros. apply execute_task_queue.
  - done.
Qed.

Lemma sweep_keeps_waiting now clock s task t :
  Forall well_timed (task_queue s) →
  task ∈ task_queue s →
  task !! "scheduled_time" = Some (VIso t) →
  now < t →
  task ∈ task_queue (final (_process_task_queue now clock s)) ∧
  Forall well_timed (task_queue (final (_process_task_queue now clock s))) ∧
  task ∉ (due_entries now 0 (task_queue s)).*2.
Proof.
  intros Hq Hin Ht Hnow. rewrite process_task_queue_run by done. simpl.
  rewrite keep_unmarked_filter.
  assert (Hnot : due now task = false).
  { destruct (due now task) eqn:Hd; [|done]. apply (due_timed _ _ _ Ht) in Hd. lia. }
  split_and!.
  - by apply list_elem_of_filter.
  - apply Forall_forall. intros x Hx. apply list_elem_of_filter in Hx as [_ Hx].
    rewrite Forall_forall in Hq. by apply Hq.
  - intros Hex. apply list_elem_of_fmap in Hex as ([j t'] & -> & Hex).
    apply due_entries_lookup in Hex as (_ & _ & Hd). simpl in Hnot. congruence.
Qed.

Lemma sweeps_keep_waiting sweeps : ∀ s task t,
  Forall well_timed (task_queue s) →
  task ∈ task_queue s →
  task !! "scheduled_time" = Some (VIso t) →
  Forall (λ sw, sw.1 < t) sweeps →
  task ∈ task_queue (after_sweeps sweeps s) ∧
  Forall well_timed (task_queue (after_sweeps sweeps s)) ∧
  task ∉ sweeps_executed sweeps s.
Proof.
  induction sweeps as [|[now clock] sweeps IH]; intros s task t Hq Hin Ht Hsw.
  - simpl. split_and!; [done..|]. apply not_elem_of_nil.
  - apply Forall_cons in Hsw as [Hnow Hsw]. simpl in Hnow.
    destruct (sweep_keeps_waiting now clock s task t Hq Hin Ht Hnow) as (Hin' & Hq' & Hex).
    destruct (IH _ task t Hq' Hin' Ht Hsw) as (Hin'' & Hq'' & Hex').
    simpl. split_and!; [done..|].
    rewrite elem_of_app. by intros [?|?].
Qed.

Lemma due_entries_elem now (q : list dict) task :
  task ∈ q → due now task = true → task ∈ (due_entries now 0 q).*2.
Proof.
  intros Hin Hd. apply list_elem_of_lookup in Hin as [i Hi].
  apply list_elem_of_fmap. exists (i, task). split; [done|].
  apply due_entries_lookup. rewrite Nat.sub_0_r. split; [lia|done].
Qed.

(** A task without [scheduled_time] added to a queue of well-timed tasks is
    executed by the next sweep. *)
Lemma add_task_then_sweep s task_data created save_time write_ok now clock :
  Forall well_timed (task_queue s) →
  is_Some (task_data !! "type") →
  task_data !! "scheduled_time" = None →
  ∃ s1 s2,
    add_task task_data created save_time write_ok s = Ok true s1 ∧
    _process_task_queue now clock s1 = Ok tt s2 ∧
    s2 = set_task_queue (task_queue s2)
           (run_executions clock (due_entries now 0 (task_queue s1)) s1) ∧
    (length (task_queue s), created_task created task_data)
      ∈ due_entries now 0 (task_queue s1).
Proof.
  intros Hq Htype Hnone. rewrite add_task_run.
  apply has_key_true in Htype. rewrite Htype.
  set (s1 := saved_state _ _ _).
  assert (Hs1 : task_queue s1 = task_queue s ++ [created_task created task_data]).
  { subst s1. by rewrite saved_state_queue. }
  assert (Hcreated : created_task created task_data !! "scheduled_time" = None).
  { unfold created_task. by rewrite lookup_insert_ne. }
  assert (Hq1 : Forall well_timed (task_queue s1)).
  { rewrite Hs1. apply Forall_app. split; [done|]. constructor; [|constructor].
    unfold well_timed. by rewrite Hcreated. }
  exists s1. eexists. split; [done|].
  split; [by apply process_task_queue_run|]. split; [done|].
  apply due_entries_lookup. rewrite Nat.sub_0_r, Hs1. split; [lia|].
  split; [by apply list_lookup_middle|by apply due_absent].
Qed.



(** The sweep of the example queue at [now = 50]: the reminder (no
    [scheduled_time]) and the backup (due since 5) are executed and deleted,
    the message (due at 100) stays. *)
Example due_task_sweep_run :
  ∃ s', _process_task_queue 50 (λ i, 50 + Z.of_nat i)
          (set_task_queue [queue_b; queue_a; queue_c] init) = Ok tt s' ∧
        task_queue s' = [queue_b] ∧
        behavior_history s' = [task_execution queue_a 51; task_execution queue_c 52].
Proof. eexists. split; [vm_compute; reflexivity|]. split; reflexivity. Qed.

Lemma last_keep_last {A} (n : nat) (h : list A) (x : A) :
  (0 < n)%nat → last (keep_last n (h ++ [x])) = Some x.
Proof.
  intros Hn. unfold keep_last, last_n.
  destruct (n <? length (h ++ [x]))%nat; [|apply last_snoc].
  rewrite length_app. simpl. rewrite drop_app_le by lia. apply last_snoc.
Qed.



(** A task of a type no handler knows, with [remove_on_failure = False], is
    executed with success and deleted by the sweep. *)
Example unknown_type_removed :
  remove_on_failure queue_c = false ∧
  (∃ s', _execute_task 7 queue_c init = Ok true s') ∧
  ∃ s', _process_task_queue 50 (λ _, 50) (set_task_queue [queue_c] init) = Ok tt s' ∧
        task_queue s' = [].
Proof.
  split; [reflexivity|]. split; eexists; [vm_compute; reflexivity|].
  split; [vm_compute; reflexivity|reflexivity].
Qed.

(** ** The recurring-task sweep *)

Lemma recurring_loop_run now draws recs : ∀ pre s,
  recurring_tasks s = pre ++ recs →
  recurring_loop now draws (length pre) (length recs) s =
  let marks := sweep_fired now draws (length pre) recs in
  let s' :=
    set_recurring_tasks
      (pre ++ update_marked (stamp_last_execution now) marks recs)
      (set_task_queue (task_queue s ++ (queue_copy now <$> keep_marked marks recs)) s) in
  match sweep_raises now draws (length pre) recs with
  | None => Ok tt s'
  | Some e => Raise e s'
  end.
Proof.
  induction recs as [|r recs IH]; intros pre s Hs.
  - simpl. unfold ret. f_equal. destruct s; simpl in *.
    rewrite !app_nil_r in *. subst. reflexivity.
  - assert (Hnext : recurring_tasks s = (pre ++ [r]) ++ recs) by (by rewrite <- app_assoc).
    assert (Hunchanged : ∀ rs, set_recurring_tasks rs (set_task_queue (task_queue s ++ []) s)
                               = set_recurring_tasks rs s).
    { intros rs. unfold set_recurring_tasks, set_task_queue. simpl. by rewrite app_nil_r. }
    assert (Hskip : recurring_loop now draws (S (length pre)) (length recs) s =
      let marks := false :: sweep_fired now draws (S (length pre)) recs in
      let s' :=
        set_recurring_tasks
          (pre ++ update_marked (stamp_last_execution now) marks (r :: recs))
          (set_task_queue
             (task_queue s ++ (queue_copy now <$> keep_marked marks (r :: recs))) s) in
      match sweep_raises now draws (S (length pre)) recs with
      | None => Ok tt s'
      | Some e => Raise e s'
      end).
    { specialize (IH (pre ++ [r]) s Hnext). rewrite length_app in IH. simpl in IH.
      rewrite Nat.add_1_r in IH. rewrite IH. simpl. rewrite <- !app_assoc. done. }
    cbn [recurring_loop length sweep_fired sweep_raises]. unfold bind at 1, gets at 1.
    rewrite Hs, list_lookup_middle by done. unfold fires.
    destruct (negb (truthy (dict_get r "active" (VBool true)))) eqn:Hactive.
    { apply Hskip. }
    assert (Hstep : ∀ last,
      (fire <~ lift (should_execute now (draws (length pre)) last r) ;;
       (if fire : bool then
          modify (λ s, set_task_queue (task_queue s ++ [<["scheduled_time" := VIso now]> r]) s) ;;;
          modify (λ s, set_recurring_tasks
            (<[length pre := <["last_execution" := VIso now]> r]> (recurring_tasks s)) s)
        else ret tt) ;;;
       recurring_loop now draws (S (length pre)) (length recs)) s =
      match should_execute now (draws (length pre)) last r with
      | inl e => Raise e (set_recurring_tasks (pre ++ r :: recs)
                            (set_task_queue (task_queue s ++ []) s))
      | inr b =>
          let marks := b :: sweep_fired now draws (S (length pre)) recs in
          let s' :=
            set_recurring_tasks
              (pre ++ update_marked (stamp_last_execution now) marks (r :: recs))
              (set_task_queue
                 (task_queue s ++ (queue_copy now <$> keep_marked marks (r :: recs))) s) in
          match sweep_raises now draws (S (length pre)) recs with
          | None => Ok tt s'
          | Some e => Raise e s'
          end
      end).
    { intros last. unfold bind at 1.
      destruct (should_execute now (draws (length pre)) last r) as [e|[|]]; simpl.
      - unfold raise. f_equal. rewrite Hunchanged. destruct s; simpl in *. by subst.
      - unfold bind, modify. simpl. rewrite Hs.
        rewrite insert_app_r_alt, Nat.sub_diag by done. simpl.
        set (s1 := set_recurring_tasks _ _).
        assert (Hs1 : recurring_tasks s1 = (pre ++ [<["last_execution" := VIso now]> r]) ++ recs)
          by (subst s1; simpl; by rewrite <- app_assoc).
        specialize (IH _ s1 Hs1). rewrite length_app in IH. simpl in IH.
        rewrite Nat.add_1_r in IH. rewrite IH. simpl.
        subst s1. unfold set_recurring_tasks, set_task_queue. simpl.
        rewrite <- !app_assoc. simpl. done.
      - unfold bind, ret. simpl. apply Hskip. }
    destruct (r !! "last_execution") as [v|] eqn:Hlast.
    + unfold bind at 1. unfold bind at 1. destruct (fromisoformat v) as [e|last]; simpl.
      * unfold raise. f_equal. rewrite Hunchanged. destruct s; simpl in *. by subst.
      * etrans; [exact (Hstep (Some last))|].
        by destruct (should_execute now (draws (length pre)) (Some last) r).
    + etrans; [exact (Hstep None)|].
      by destruct (should_execute now (draws (length pre)) None r).
Qed.

(** [_check_recurring_tasks] as a function of the records: the records that
    fire are stamped in place and copied to the queue, up to the record, if
    any, whose fields make the loop raise. *)
Lemma check_recurring_tasks_run now draws s :
  _check_recurring_tasks now draws s =
  let s' := fired_state now (sweep_fired now draws 0 (recurring_tasks s)) s in
  match sweep_raises now draws 0 (recurring_tasks s) with
  | None => Ok tt s'
  | Some e => Raise e s'
  end.
Proof.
  unfold _check_recurring_tasks, bind, gets.
  apply (recurring_loop_run now draws (recurring_tasks s) [] s). done.
Qed.

Lemma sweep_fired_length now draws recs : ∀ i,
  (length (sweep_fired now draws i recs) ≤ length recs)%nat ∧
  (sweep_raises now draws i recs = None →
   length (sweep_fired now draws i recs) = length recs).
Proof.
  induction recs as [|r recs IH]; intros i; simpl; [done|].
  destruct (fires now (draws i) r) as [e|b]; simpl.
  - split; [lia|done].
  - destruct (IH (S i)) as [Hle Heq]. split; [lia|]. intros Hn. by rewrite Heq.
Qed.

(** A mark is the decision taken for the record at its index. *)
Lemma sweep_fired_decision now draws recs : ∀ i j b,
  sweep_fired now draws i recs !! j = Some b →
  ∃ task, recs !! j = Some task ∧ fires now (draws (i + j)%nat) task = inr b.
Proof.
  induction recs as [|r recs IH]; intros i j b Hj; simpl in *; [done|].
  destruct (fires now (draws i) r) as [e|b'] eqn:Hf; [done|].
  destruct j as [|j]; simpl in *.
  - simplify_eq. exists r. by rewrite Nat.add_0_r.
  - destruct (IH _ _ _ Hj) as (task & ? & ?). exists task.
    by replace (i + S j)%nat with (S i + j)%nat by lia.
Qed.

(** A record reached without an exception is marked with its decision. *)
Lemma sweep_fired_reached now draws recs : ∀ i j task b,
  (∀ k earlier, (k < j)%nat → recs !! k = Some earlier →
                ∃ b', fires now (draws (i + k)%nat) earlier = inr b') →
  recs !! j = Some task →
  fires now (draws (i + j)%nat) task = inr b →
  sweep_fired now draws i recs !! j = Some b.
Proof.
  induction recs as [|r recs IH]; intros i j task b Hbefore Hj Hf; [done|].
  destruct j as [|j]; simpl in *.
  - simplify_eq. rewrite Nat.add_0_r in Hf. by rewrite Hf.
  - destruct (Hbefore 0%nat r) as [b' Hb']; [lia|done|].
    rewrite Nat.add_0_r in Hb'. rewrite Hb'. simpl.
    apply (IH (S i) j task b); [|done|by replace (S i + j)%nat with (i + S j)%nat by lia].
    intros k earlier Hk Hearlier.
    replace (S i + k)%nat with (i + S k)%nat by lia.
    apply (Hbefore (S k)); [lia|done].
Qed.

Lemma update_marked_length {A} (f : A → A) marks : ∀ q,
  length (update_marked f marks q) = length q.
Proof. induction marks as [|b marks IH]; intros [|t q]; simpl; auto. Qed.

Lemma update_marked_lookup {A} (f : A → A) marks : ∀ q j t,
  q !! j = Some t →
  update_marked f marks q !! j =
  Some (match marks !! j with Some true => f t | _ => t end).
Proof.
  induction marks as [|b marks IH]; intros [|t' q] j t Hj; try done.
  destruct j as [|j]; simpl in *.
  - simplify_eq. by destruct b.
  - by apply IH.
Qed.

Lemma keep_marked_elem {A} (marks : list bool) : ∀ (q : list A) j t,
  marks !! j = Some true → q !! j = Some t → t ∈ keep_marked marks q.
Proof.
  induction marks as [|b marks IH]; intros [|t' q] j t Hm Hq; try done.
  destruct j as [|j]; simpl in *.
  - simplify_eq. apply elem_of_app. left. by apply list_elem_of_singleton.
  - apply elem_of_app. right. by eapply IH.
Qed.

Lemma fires_active now draw task :
  fires now draw task = inr true → truthy (dict_get task "active" (VBool true)) = true.
Proof.
  unfold fires. destruct (truthy _); [done|]. simpl. congruence.
Qed.

Lemma delete_stamp_last_execution now (task : dict) :
  delete "last_execution" (stamp_last_execution now task) = delete "last_execution" task.
Proof. unfold stamp_last_execution. apply delete_insert_eq. Qed.

(** C2: whatever the records hold, and also when one of them stops the
    sweep with an exception, [_check_recurring_tasks] leaves the table with
    the same number of records; the records marked [fired] (each one
    active, with the decision to fire) get [last_execution = now] and
    nothing else changed, the others are untouched; the queue gains one
    copy stamped [scheduled_time = now] per fired record, in table order;
    nothing else of the engine is written. *)
Theorem recurring_sweep_keeps_records (now : datetime) (draws : nat → float)
    (s : engine) :
  ∃ fired : list bool,
    let s' := final (_check_recurring_tasks now draws s) in
    s' = fired_state now fired s ∧
    (length fired ≤ length (recurring_tasks s))%nat ∧
    (raised (_check_recurring_tasks now draws s) = false →
     length fired = length (recurring_tasks s)) ∧
    length (recurring_tasks s') = length (recurring_tasks s) ∧
    task_queue s' =
      task_queue s ++ (queue_copy now <$> keep_marked fired (recurring_tasks s)) ∧
    (∀ i b, fired !! i = Some b →
       ∃ task, recurring_tasks s !! i = Some task ∧
               fires now (draws i) task = inr b) ∧
    (∀ i task, recurring_tasks s !! i = Some task →
       ∃ task',
         recurring_tasks s' !! i = Some task' ∧
         delete "last_execution" task' = delete "last_execution" task ∧
         (fired !! i = Some true →
            task' = stamp_last_execution now task ∧
            task' !! "last_execution" = Some (VIso now) ∧
            truthy (dict_get task "active" (VBool true)) = true ∧
            queue_copy now task ∈ task_queue s') ∧
         (fired !! i ≠ Some true → task' = task)) ∧
    behavior_history s' = behavior_history s ∧
    intent_patterns s' = intent_patterns s ∧
    active s' = active s ∧
    intent_file s' = intent_file s.
Proof.
  exists (sweep_fired now draws 0 (recurring_tasks s)).
  assert (Hfinal : final (_check_recurring_tasks now draws s) =
                   fired_state now (sweep_fired now draws 0 (recurring_tasks s)) s).
  { rewrite check_recurring_tasks_run. simpl.
    by destruct (sweep_raises now draws 0 (recurring_tasks s)). }
  cbv zeta. rewrite Hfinal.
  destruct (sweep_fired_length now draws (recurring_tasks s) 0%nat) as [Hle Heq].
  split_and!; try done.
  - intros Hr. apply Heq. rewrite check_recurring_tasks_run in Hr. simpl in Hr.
    by destruct (sweep_raises now draws 0 (recurring_tasks s)).
  - simpl. apply update_marked_length.
  - intros i b Hi. by apply sweep_fired_decision in Hi.
  - intros i task Hi. eexists. split.
    { simpl. by apply update_marked_lookup. }
    destruct (sweep_fired now draws 0 (recurring_tasks s) !! i) as [[|]|] eqn:Hm.
    + split; [apply delete_stamp_last_execution|]. split; [|done].
      intros _. split; [done|]. split; [apply lookup_insert_eq|].
      pose proof (sweep_fired_decision _ _ _ _ _ _ Hm) as (task0 & Htask0 & Hf).
      simpl in Hf. simplify_eq. split; [by eapply fires_active|].
      simpl. apply elem_of_app. right. apply list_elem_of_fmap. exists task.
      split; [done|]. by eapply keep_marked_elem.
    + split; [done|]. split; [done|done].
    + split; [done|]. split; [done|done].
Qed.

(** The decision for an active record with [interval_hours = 24]. *)
Lemma fires_interval_24 now draw (task : dict) :
  task !! "interval_hours" = Some (VInt 24) →
  truthy (dict_get task "active" (VBool true)) = true →
  (task !! "last_execution" = None → fires now draw task = inr true) ∧
  (∀ last, task !! "last_execution" = Some (VIso last) →
     fires now draw task = inr (bool_decide (24 * usec_per_hour ≤ now - last))).
Proof.
  intros Hint Hact. unfold fires, should_execute. rewrite Hact, Hint. simpl.
  split.
  - by intros ->.
  - intros last ->. simpl. do 1 f_equal. rewrite Z.geb_leb.
    destruct (Z.leb_spec (24 * usec_per_hour) (now - last)).
    + by rewrite bool_decide_eq_true_2.
    + rewrite bool_decide_eq_false_2; [done|lia].
Qed.

(** The record at index [i], reached without an exception, is marked with
    its decision, stamped if it fires and left alone if not. *)
Lemma sweep_record_at now draws s i task b :
  recurring_tasks s !! i = Some task →
  (∀ j earlier, (j < i)%nat → recurring_tasks s !! j = Some earlier →
                ∃ b', fires now (draws j) earlier = inr b') →
  fires now (draws i) task = inr b →
  ∃ fired,
    final (_check_recurring_tasks now draws s) = fired_state now fired s ∧
    fired !! i = Some b ∧
    recurring_tasks (fired_state now fired s) !! i =
      Some (if b then stamp_last_execution now task else task) ∧
    (b = true → queue_copy now task ∈ task_queue (fired_state now fired s)).
Proof.
  intros Hi Hbefore Hf.
  exists (sweep_fired now draws 0 (recurring_tasks s)).
  assert (Hm : sweep_fired now draws 0 (recurring_tasks s) !! i = Some b).
  { by eapply sweep_fired_reached. }
  split_and!.
  - rewrite check_recurring_tasks_run. simpl.
    by destruct (sweep_raises now draws 0 (recurring_tasks s)).
  - done.
  - simpl. erewrite update_marked_lookup by done. rewrite Hm. by destruct b.
  - intros ->. simpl. apply elem_of_app. right. apply list_elem_of_fmap.
    exists task. split; [done|]. by eapply keep_marked_elem.
Qed.



(** The daily cleanup over two days: added at 0, it fires on the sweep one
    hour later, not on the sweep at 20 hours, and again on the sweep at 25
    hours. *)
Example daily_cleanup_run :
  let hour_at n := n * usec_per_hour in
  let sweep n s := final (_check_recurring_tasks (hour_at n) (λ _, 0.5%float) s) in
  let s1 := sweep 1 (final (add_recurring_task daily_cleanup 0 1 true init)) in
  let s2 := sweep 20 s1 in
  let s3 := sweep 25 s2 in
  length (task_queue s1) = 1%nat ∧ length (task_queue s2) = 1%nat ∧
  length (task_queue s3) = 2%nat ∧
  ((λ r, r !! "last_execution") <$> recurring_tasks s2) = [Some (VIso (hour_at 1))] ∧
  ((λ r, r !! "last_execution") <$> recurring_tasks s3) = [Some (VIso (hour_at 25))].
Proof. vm_compute. repeat split. Qed.

(** ** Adding and removing tasks *)

(** C5: [add_task] on a task without [type] returns [False] and leaves the
    queue (and all of the engine but the log) as it was; on a task with a
    [type] it returns [True], the queue gains the task stamped with
    [created] at its end, and [save_intent_data] is run on that state: when
    the write succeeds the file holds the new queue. *)
Theorem add_task_validates (task_data : dict) (created save_time : datetime)
    (write_ok : bool) (s : engine) :
  (task_data !! "type" = None →
     add_task task_data created save_time write_ok s
       = Ok false (emit (LogError MMissingType) s) ∧
     task_queue (emit (LogError MMissingType) s) = task_queue s) ∧
  (is_Some (task_data !! "type") →
     ∃ s1 s',
       add_task task_data created save_time write_ok s = Ok true s' ∧
       task_queue s1 = task_queue s ++ [created_task created task_data] ∧
       created_task created task_data !! "created" = Some (VIso created) ∧
       save_intent_data save_time write_ok s1 = Ok write_ok s' ∧
       task_queue s' = task_queue s ++ [created_task created task_data] ∧
       (write_ok = true →
          d_task_queue <$> intent_file s'
            = Some (task_queue s ++ [created_task created task_data]))).
Proof.
  rewrite add_task_run. split.
  - intros Hnone. apply has_key_false in Hnone. by rewrite Hnone.
  - intros Hsome. apply has_key_true in Hsome. rewrite Hsome.
    exists (emit (LogInfo (MAdded (dict_get (created_task created task_data) "type" VNone)))
              (set_task_queue (task_queue s ++ [created_task created task_data]) s)).
    eexists. split; [reflexivity|].
    split; [reflexivity|]. split; [apply lookup_insert_eq|].
    split; [apply save_intent_data_run|].
    split; [by rewrite saved_state_queue|].
    intros ->. done.
Qed.

(** C5 on examples: the empty dictionary is refused, a reminder is queued
    and saved. *)
Example add_task_examples :
  add_task ∅ 10 11 true init = Ok false (emit (LogError MMissingType) init) ∧
  ∃ s', add_task queue_a 10 11 true init = Ok true s' ∧
        task_queue s' = [<["created" := VIso 10]> queue_a] ∧
        d_task_queue <$> intent_file s' = Some [<["created" := VIso 10]> queue_a].
Proof. split; [reflexivity|]. eexists. split; [vm_compute; reflexivity|done]. Qed.

Lemma add_task_validates_witness :
  (∅ : dict) !! "type" = None ∧
  is_Some (queue_a !! "type") ∧
  (add_task ∅ 10 11 true init = Ok false (emit (LogError MMissingType) init) ∧
   task_queue (emit (LogError MMissingType) init) = task_queue init) ∧
  ∃ s1 s',
    add_task queue_a 10 11 true init = Ok true s' ∧
    task_queue s1 = task_queue init ++ [created_task 10 queue_a] ∧
    created_task 10 queue_a !! "created" = Some (VIso 10) ∧
    save_intent_data 11 true s1 = Ok true s' ∧
    task_queue s' = task_queue init ++ [created_task 10 queue_a] ∧
    (true = true →
       d_task_queue <$> intent_file s' = Some (task_queue init ++ [created_task 10 queue_a])).
Proof.
  assert (H1 : (∅ : dict) !! "type" = None) by reflexivity.
  assert (H2 : is_Some (queue_a !! "type")) by (by eexists).
  split; [done|]. split; [done|]. split.
  - exact (proj1 (add_task_validates ∅ 10 11 true init) H1).
  - exact (proj2 (add_task_validates queue_a 10 11 true init) H2).
Defined.

Lemma existsb_recurrence (task_data : dict) :
  existsb (has_key task_data) recurrence_keys = true ↔
  (1 ≤ recurrence_count task_data)%nat.
Proof.
  unfold recurrence_count, recurrence_keys, has_key. simpl.
  rewrite !filter_cons, filter_nil.
  repeat case_bool_decide; repeat case_decide; simpl; split; intros; try done; lia.
Qed.

(** C4, as stated, fails: a task that has a type and two discriminators
    (so not exactly one) is accepted, and the table grows. *)
Lemma add_recurring_task_accepts_two :
  recurrence_count weekly_and_hourly = 2%nat ∧
  ∃ s', add_recurring_task weekly_and_hourly 10 11 true init = Ok true s' ∧
        recurring_tasks s' = [created_recurring 10 weekly_and_hourly] ∧
        recurring_tasks s' ≠ recurring_tasks init.
Proof.
  split; [reflexivity|]. eexists. split; [vm_compute; reflexivity|].
  split; [reflexivity|done].
Qed.

(** C4, amended: [add_recurring_task] returns [False] and leaves the table
    as it was when the task has no [type] or none of the three recurrence
    discriminators; when it has a [type] and at least one discriminator it
    returns [True] and the table gains, at its end, the task stamped with
    [created] and [active = True]. *)
Theorem add_recurring_task_validates (task_data : dict)
    (created save_time : datetime) (write_ok : bool) (s : engine) :
  (task_data !! "type" = None ∨ recurrence_count task_data = 0%nat →
     ∃ s', add_recurring_task task_data created save_time write_ok s = Ok false s' ∧
           recurring_tasks s' = recurring_tasks s ∧
           task_queue s' = task_queue s ∧
           intent_file s' = intent_file s) ∧
  (is_Some (task_data !! "type") ∧ (1 ≤ recurrence_count task_data)%nat →
     ∃ s', add_recurring_task task_data created save_time write_ok s = Ok true s' ∧
           recurring_tasks s' =
             recurring_tasks s ++ [created_recurring created task_data] ∧
           created_recurring created task_data !! "created" = Some (VIso created) ∧
           created_recurring created task_data !! "active" = Some (VBool true) ∧
           (∀ key, key ≠ "created" → key ≠ "active" →
                   created_recurring created task_data !! key = task_data !! key) ∧
           (write_ok = true →
              d_recurring_tasks <$> intent_file s'
                = Some (recurring_tasks s ++ [created_recurring created task_data]))).
Proof.
  rewrite add_recurring_task_run. split.
  - intros Hbad. destruct (has_key task_data "type") eqn:Htype.
    + destruct Hbad as [Hnone|Hzero].
      { apply has_key_false in Hnone. congruence. }
      destruct (existsb (has_key task_data) recurrence_keys) eqn:He.
      { apply existsb_recurrence in He. lia. }
      by eexists.
    + by eexists.
  - intros [Htype Hrec]. apply has_key_true in Htype.
    apply existsb_recurrence in Hrec. rewrite Htype, Hrec.
    eexists. split; [reflexivity|]. split; [by rewrite saved_state_recurring|].
    unfold created_recurring. split; [by rewrite lookup_insert_ne, lookup_insert_eq|].
    split; [apply lookup_insert_eq|]. split.
    + intros key Hc Ha. by rewrite !lookup_insert_ne.
    + intros ->. done.
Qed.

Lemma add_recurring_task_validates_witness :
  (no_recurrence !! "type" = None ∨ recurrence_count no_recurrence = 0%nat) ∧
  (is_Some (weekly_and_hourly !! "type") ∧ (1 ≤ recurrence_count weekly_and_hourly)%nat) ∧
  (∃ s', add_recurring_task no_recurrence 10 11 true init = Ok false s' ∧
         recurring_tasks s' = recurring_tasks init ∧
         task_queue s' = task_queue init ∧
         intent_file s' = intent_file init) ∧
  ∃ s', add_recurring_task weekly_and_hourly 10 11 true init = Ok true s' ∧
        recurring_tasks s' =
          recurring_tasks init ++ [created_recurring 10 weekly_and_hourly] ∧
        created_recurring 10 weekly_and_hourly !! "created" = Some (VIso 10) ∧
        created_recurring 10 weekly_and_hourly !! "active" = Some (VBool true) ∧
        (∀ key, key ≠ "created" → key ≠ "active" →
                created_recurring 10 weekly_and_hourly !! key = weekly_and_hourly !! key) ∧
        (true = true →
           d_recurring_tasks <$> intent_file s'
             = Some (recurring_tasks init ++ [created_recurring 10 weekly_and_hourly])).
Proof.
  assert (H1 : no_recurrence !! "type" = None ∨ recurrence_count no_recurrence = 0%nat)
    by (right; reflexivity).
  assert (H2 : is_Some (weekly_and_hourly !! "type") ∧
               (1 ≤ recurrence_count weekly_and_hourly)%nat).
  { split; [by eexists|]. vm_compute. lia. }
  split; [done|]. split; [done|]. split.
  - exact (proj1 (add_recurring_task_validates no_recurrence 10 11 true init) H1).
  - exact (proj2 (add_recurring_task_validates weekly_and_hourly 10 11 true init) H2).
Defined.

(** C6, as stated, fails: on a queue of three tasks the second
    [remove_task(1)] does not fail; it returns [True] and deletes the task
    that was at index 2. *)
Lemma remove_task_twice_succeeds :
  ∃ s1 s2,
    remove_task 1 20 true (set_task_queue [queue_a; queue_b; queue_c] init) = Ok true s1 ∧
    task_queue s1 = [queue_a; queue_c] ∧
    remove_task 1 21 true s1 = Ok true s2 ∧
    task_queue s2 = [queue_a].
Proof.
  eexists _, _. split; [vm_compute; reflexivity|]. split; [reflexivity|].
  split; [vm_compute; reflexivity|]. reflexivity.
Qed.

(** C6, amended: on a queue of three tasks [remove_task(1)] succeeds, a
    second [remove_task(1)] succeeds too and deletes the task that was at
    index 2, the task at index 0 stays, and a third [remove_task(1)] fails
    and changes nothing in the queue.  In general [remove_task(index)]
    returns [False] exactly when [index] is outside [0, len(queue)), and
    then the queue is unchanged; otherwise it deletes the entry at
    [index]. *)
Theorem remove_task_by_index :
  (∀ (a b c : dict) (t1 t2 t3 : datetime) (ok1 ok2 ok3 : bool) (s : engine),
     ∃ s1 s2 s3,
       remove_task 1 t1 ok1 (set_task_queue [a; b; c] s) = Ok true s1 ∧
       task_queue s1 = [a; c] ∧
       remove_task 1 t2 ok2 s1 = Ok true s2 ∧
       task_queue s2 = [a] ∧
       remove_task 1 t3 ok3 s2 = Ok false s3 ∧
       task_queue s3 = [a]) ∧
  (∀ (task_id : Z) (save_time : datetime) (write_ok : bool) (s : engine),
     ∃ (removed : bool) s',
       remove_task task_id save_time write_ok s = Ok removed s' ∧
       (removed = false ↔ ¬ (0 ≤ task_id < Z.of_nat (length (task_queue s)))) ∧
       (removed = false → task_queue s' = task_queue s) ∧
       (removed = true →
          task_queue s' = delete (Z.to_nat task_id) (task_queue s) ∧
          S (length (task_queue s')) = length (task_queue s))).
Proof.
  split.
  - intros. eexists _, _, _.
    split; [rewrite remove_task_run; reflexivity|].
    rewrite saved_state_queue. simpl. split; [reflexivity|].
    split; [rewrite remove_task_run, saved_state_queue; reflexivity|].
    rewrite saved_state_queue. simpl. split; [reflexivity|].
    split; [rewrite remove_task_run, saved_state_queue; reflexivity|].
    simpl. by rewrite saved_state_queue.
  - intros. rewrite remove_task_run.
    destruct ((0 <=? task_id) && (task_id <? Z.of_nat (length (task_queue s)))) eqn:Hin.
    + apply andb_true_iff in Hin as [H0%Z.leb_le Hlt%Z.ltb_lt].
      eexists _, _. split; [reflexivity|]. split; [split; [done|lia]|].
      split; [done|]. intros _. rewrite saved_state_queue. simpl.
      split; [done|]. rewrite length_delete.
      * lia.
      * apply lookup_lt_is_Some. lia.
    + apply andb_false_iff in Hin.
      eexists _, _. split; [reflexivity|]. split.
      * split; [|done]. intros _. destruct Hin as [H0%Z.leb_gt|Hlt%Z.ltb_ge]; lia.
      * split; [done|done].
Qed.

(** ** The scheduler loop *)

Lemma keeps_active_ret {A} (a : A) : keeps_active (ret a).
Proof. done. Qed.

Lemma keeps_active_raise {A} e : keeps_active (@raise A e).
Proof. done. Qed.

Lemma keeps_active_gets {A} (f : engine → A) : keeps_active (gets f).
Proof. done. Qed.

Lemma keeps_active_lift {A} (o : exn + A) : keeps_active (lift o).
Proof. by destruct o. Qed.

Lemma keeps_active_modify f :
  (∀ s, active (f s) = active s) → keeps_active (modify f).
Proof. intros Hf s. apply Hf. Qed.

Lemma keeps_active_bind {A B} (m : M A) (k : A → M B) :
  keeps_active m → (∀ a, keeps_active (k a)) → keeps_active (bind m k).
Proof.
  intros Hm Hk s. unfold bind. specialize (Hm s).
  destruct (m s) as [a s1|e s1]; simpl in *; [|done].
  by rewrite Hk.
Qed.

Lemma keeps_active_try_except {A} (m : M A) (h : exn → M A) :
  keeps_active m → (∀ e, keeps_active (h e)) → keeps_active (try_except m h).
Proof.
  intros Hm Hh s. unfold try_except. specialize (Hm s).
  destruct (m s) as [a s1|e s1]; simpl in *; [done|].
  by rewrite Hh.
Qed.

Lemma keeps_active_emit e : keeps_active (modify (emit e)).
Proof. by apply keeps_active_modify. Qed.

Lemma keeps_active_execute_task timestamp task :
  keeps_active (_execute_task timestamp task).
Proof.
  intros s. by destruct (execute_task_returns timestamp task s) as (l & _ & ->).
Qed.

Lemma keeps_active_del_loop idx : keeps_active (del_loop idx).
Proof.
  induction idx as [|i idx IH]; simpl; [apply keeps_active_ret|].
  apply keeps_active_bind; [apply keeps_active_gets|]. intros q.
  destruct (i <? length q)%nat; [|apply keeps_active_raise].
  apply keeps_active_bind; [by apply keeps_active_modify|done].
Qed.

Lemma keeps_active_sweep_loop execute now q :
  (∀ i task, keeps_active (execute i task)) →
  ∀ i acc, keeps_active (sweep_loop execute now i q acc).
Proof.
  intros Hexec. induction q as [|t q IH]; intros i acc; simpl.
  { apply keeps_active_ret. }
  assert (Hrun : keeps_active
    (success <~ execute i t ;;
     if success || truthy (dict_get t "remove_on_failure" (VBool true))
     then sweep_loop execute now (S i) q (acc ++ [i])
     else sweep_loop execute now (S i) q acc)).
  { apply keeps_active_bind; [done|]. intros success.
    destruct (success || _); apply IH. }
  destruct (t !! "scheduled_time") as [v|]; [|done].
  apply keeps_active_bind; [apply keeps_active_lift|]. intros scheduled_time.
  destruct (now >=? scheduled_time); [done|apply IH].
Qed.

Lemma keeps_active_process_task_queue now clock :
  keeps_active (_process_task_queue now clock).
Proof.
  unfold _process_task_queue, process_task_queue_with.
  apply keeps_active_bind; [apply keeps_active_gets|]. intros q.
  apply keeps_active_bind; [|intros; apply keeps_active_del_loop].
  apply keeps_active_sweep_loop. intros. apply keeps_active_execute_task.
Qed.

Lemma keeps_active_check_recurring_tasks now draws :
  keeps_active (_check_recurring_tasks now draws).
Proof.
  intros s. rewrite check_recurring_tasks_run. simpl.
  by destruct (sweep_raises now draws 0 (recurring_tasks s)).
Qed.

Lemma keeps_active_save last_updated write_ok :
  keeps_active (save_intent_data last_updated write_ok).
Proof. intros s. rewrite save_intent_data_run. simpl. by destruct write_ok. Qed.

Lemma keeps_active_add_patterns identified found :
  ∀ k, keeps_active (add_patterns identified k found).
Proof.
  induction found as [|c found IH]; intros k; simpl; [apply keeps_active_ret|].
  apply keeps_active_bind; [by apply keeps_active_modify|done].
Qed.

Lemma keeps_active_analyze env : keeps_active (_analyze_behavior_patterns env).
Proof.
  unfold _analyze_behavior_patterns.
  destruct (_ <? _)%float; [apply keeps_active_ret|].
  apply keeps_active_bind; [apply keeps_active_emit|]. intros _.
  apply keeps_active_bind; [apply keeps_active_gets|]. intros recent.
  apply keeps_active_bind; [apply keeps_active_add_patterns|]. intros _.
  destruct (_ ++ _); [apply keeps_active_ret|].
  apply keeps_active_bind; [apply keeps_active_emit|]. intros _.
  apply keeps_active_bind; [apply keeps_active_save|]. intros _.
  apply keeps_active_ret.
Qed.

Lemma keeps_active_cycle env : keeps_active (cycle env).
Proof.
  unfold cycle.
  apply keeps_active_bind; [apply keeps_active_process_task_queue|]. intros _.
  apply keeps_active_bind; [apply keeps_active_check_recurring_tasks|]. intros _.
  apply keeps_active_bind; [apply keeps_active_analyze|]. intros _.
  apply keeps_active_bind; [|intros; apply keeps_active_emit].
  destruct (_ <? _)%float; [|apply keeps_active_ret].
  apply keeps_active_bind; [apply keeps_active_save|]. intros _.
  apply keeps_active_ret.
Qed.

Lemma loop_iteration_run env s :
  loop_iteration env s =
  if active s then Ok true (turn_state env s) else Ok false s.
Proof.
  unfold loop_iteration, bind, gets, try_except, turn_state.
  destruct (active s); [|done].
  by destruct (cycle env s).
Qed.

Lemma turn_state_active env s : active (turn_state env s) = active s.
Proof.
  unfold turn_state. pose proof (keeps_active_cycle env s) as H.
  by destruct (cycle env s).
Qed.

Lemma logs_only_ret {A} (a : A) : logs_only (ret a).
Proof. intros s. exists []. by rewrite app_nil_r. Qed.

Lemma logs_only_raise {A} e : logs_only (@raise A e).
Proof. intros s. exists []. by rewrite app_nil_r. Qed.

Lemma logs_only_gets {A} (f : engine → A) : logs_only (gets f).
Proof. intros s. exists []. by rewrite app_nil_r. Qed.

Lemma logs_only_lift {A} (o : exn + A) : logs_only (lift o).
Proof. destruct o; [apply logs_only_raise|apply logs_only_ret]. Qed.

Lemma logs_only_modify f :
  (∀ s, events (f s) = events s) → logs_only (modify f).
Proof. intros Hf s. exists []. simpl. by rewrite Hf, app_nil_r. Qed.

Lemma logs_only_emit e : is_log e → logs_only (modify (emit e)).
Proof. intros He s. exists [e]. split; [done|]. by constructor. Qed.

Lemma logs_only_bind {A B} (m : M A) (k : A → M B) :
  logs_only m → (∀ a, logs_only (k a)) → logs_only (bind m k).
Proof.
  intros Hm Hk s. unfold bind. destruct (Hm s) as (l1 & H1 & Hl1).
  destruct (m s) as [a s1|e s1]; simpl in *.
  - destruct (Hk a s1) as (l2 & H2 & Hl2). exists (l1 ++ l2).
    rewrite H2, H1, app_assoc. split; [done|]. by apply Forall_app.
  - by exists l1.
Qed.

Lemma logs_only_execute_task timestamp task :
  logs_only (_execute_task timestamp task).
Proof.
  intros s. destruct (execute_task_returns timestamp task s) as (l & Hl & ->).
  exists l. split; [done|]. eapply Forall_impl; [exact Hl|].
  by intros e [m ->].
Qed.

Lemma logs_only_del_loop idx : logs_only (del_loop idx).
Proof.
  induction idx as [|i idx IH]; simpl; [apply logs_only_ret|].
  apply logs_only_bind; [apply logs_only_gets|]. intros q.
  destruct (i <? length q)%nat; [|apply logs_only_raise].
  apply logs_only_bind; [by apply logs_only_modify|done].
Qed.

Lemma logs_only_sweep_loop execute now q :
  (∀ i task, logs_only (execute i task)) →
  ∀ i acc, logs_only (sweep_loop execute now i q acc).
Proof.
  intros Hexec. induction q as [|t q IH]; intros i acc; simpl.
  { apply logs_only_ret. }
  assert (Hrun : logs_only
    (success <~ execute i t ;;
     if success || truthy (dict_get t "remove_on_failure" (VBool true))
     then sweep_loop execute now (S i) q (acc ++ [i])
     else sweep_loop execute now (S i) q acc)).
  { apply logs_only_bind; [done|]. intros success.
    destruct (success || _); apply IH. }
  destruct (t !! "scheduled_time") as [v|]; [|done].
  apply logs_only_bind; [apply logs_only_lift|]. intros scheduled_time.
  destruct (now >=? scheduled_time); [done|apply IH].
Qed.

Lemma logs_only_process_task_queue now clock :
  logs_only (_process_task_queue now clock).
Proof.
  unfold _process_task_queue, process_task_queue_with.
  apply logs_only_bind; [apply logs_only_gets|]. intros q.
  apply logs_only_bind; [|intros; apply logs_only_del_loop].
  apply logs_only_sweep_loop. intros. apply logs_only_execute_task.
Qed.

Lemma logs_only_check_recurring_tasks now draws :
  logs_only (_check_recurring_tasks now draws).
Proof.
  intros s. exists []. rewrite check_recurring_tasks_run, app_nil_r. simpl.
  by destruct (sweep_raises now draws 0 (recurring_tasks s)).
Qed.

Lemma logs_only_save last_updated write_ok :
  logs_only (save_intent_data last_updated write_ok).
Proof.
  intros s. rewrite save_intent_data_run. simpl. unfold saved_state.
  destruct write_ok; eexists [_]; (split; [reflexivity|by repeat constructor]).
Qed.

Lemma logs_only_add_patterns identified found :
  ∀ k, logs_only (add_patterns identified k found).
Proof.
  induction found as [|c found IH]; intros k; simpl; [apply logs_only_ret|].
  apply logs_only_bind; [by apply logs_only_modify|done].
Qed.

Lemma logs_only_analyze env : logs_only (_analyze_behavior_patterns env).
Proof.
  unfold _analyze_behavior_patterns.
  destruct (_ <? _)%float; [apply logs_only_ret|].
  apply logs_only_bind; [by apply logs_only_emit|]. intros _.
  apply logs_only_bind; [apply logs_only_gets|]. intros recent.
  apply logs_only_bind; [apply logs_only_add_patterns|]. intros _.
  destruct (_ ++ _); [apply logs_only_ret|].
  apply logs_only_bind; [by apply logs_only_emit|]. intros _.
  apply logs_only_bind; [apply logs_only_save|]. intros _.
  apply logs_only_ret.
Qed.

Lemma logs_only_cycle_work env : logs_only (cycle_work env).
Proof.
  unfold cycle_work.
  apply logs_only_bind; [apply logs_only_process_task_queue|]. intros _.
  apply logs_only_bind; [apply logs_only_check_recurring_tasks|]. intros _.
  apply logs_only_bind; [apply logs_only_analyze|]. intros _.
  destruct (_ <? _)%float; [|apply logs_only_ret].
  apply logs_only_bind; [apply logs_only_save|]. intros _.
  apply logs_only_ret.
Qed.

Lemma cycle_work_then_sleep env s :
  cycle env s = bind (cycle_work env) (λ _, sleep 10) s.
Proof.
  unfold cycle, cycle_work, bind.
  destruct (_process_task_queue _ _ s) as [? sa|]; [|done].
  destruct (_check_recurring_tasks _ _ sa) as [? sb|]; [|done].
  by destruct (_analyze_behavior_patterns _ sb) as [? sc|].
Qed.

(** The events of a cycle: log records, then the ten-second sleep when it
    returns, and no sleep at all when it raises. *)
Lemma cycle_events env s :
  ∃ lines, Forall is_log lines ∧
    match cycle env s with
    | Ok _ s1 => events s1 = events s ++ lines ++ [Sleep 10]
    | Raise _ s1 => events s1 = events s ++ lines
    end.
Proof.
  destruct (logs_only_cycle_work env s) as (lines & Hev & Hlines).
  exists lines. split; [done|].
  rewrite cycle_work_then_sleep. unfold bind.
  destruct (cycle_work env s) as [? s1|e s1]; simpl in *.
  - by rewrite Hev, <- app_assoc.
  - done.
Qed.

(** The loop never raises; it is left only on a turn that finds the flag
    cleared, at the start or by another thread. *)
Lemma loop_turns_run others envs : ∀ k s,
  ∃ left s',
    loop_turns others k envs s = Ok left s' ∧
    (left = true →
       active s' = false ∧
       (active s = false ∨
        ∃ j s0, active s0 = true ∧ active (others j s0) = false)).
Proof.
  induction envs as [|env envs IH]; intros k s; simpl.
  { exists false, s. by split. }
  unfold bind. rewrite loop_iteration_run.
  destruct (active s) eqn:Hactive.
  - unfold modify. simpl.
    destruct (IH (S k) (others k (turn_state env s))) as (left & s' & Hrun & Hleft).
    exists left, s'. split; [done|]. intros Hl.
    destruct (Hleft Hl) as [Hs' [Hcleared|Hother]]; split; try done; right.
    + exists k, (turn_state env s). by rewrite turn_state_active.
    + done.
  - exists true, s. split; [done|]. intros _. split; [done|by left].
Qed.

Lemma loop_turns_stays others envs : ∀ k s,
  (∀ j s0, active s0 = true → active (others j s0) = true) →
  active s = true →
  ∃ s', loop_turns others k envs s = Ok false s' ∧ active s' = true.
Proof.
  induction envs as [|env envs IH]; intros k s Hothers Hactive; simpl.
  { by exists s. }
  unfold bind. rewrite loop_iteration_run, Hactive. unfold modify. simpl.
  apply IH; [done|]. apply Hothers. by rewrite turn_state_active.
Qed.


(** A cycle that raises: the queue holds a task whose [scheduled_time]
    does not read back.  The turn logs the error, sleeps 60 seconds and the
    loop goes on; three such turns leave the loop running. *)
Example loop_survives_bad_timestamp :
  let s := set_task_queue [queue_a; queue_bad] init in
  raised (cycle (quiet_cycle 50) s) = true ∧
  (∃ s', loop_iteration (quiet_cycle 50) s = Ok true s' ∧
         events s' = [LogInfo (MExecuting (VStr "reminder"));
                      LogInfo (MReminder (VStr "No content"));
                      LogInfo (MExecuted (VStr "reminder"));
                      LogError (MLoopError ValueError); Sleep 60] ∧
         task_queue s' = [queue_a; queue_bad]) ∧
  (∃ s', _background_loop (λ _ s, s)
           [quiet_cycle 50; quiet_cycle 110; quiet_cycle 170] s = Ok false s' ∧
         active s' = true).
Proof.
  split; [vm_compute; reflexivity|].
  split; eexists; (split; [vm_compute; reflexivity|]); [split|]; reflexivity.
Qed.


(** ** The intent classifier *)

(** The refinement is a function of the intent and the context alone: it
    returns or raises the same on every state, which it leaves as it is. *)
Lemma refine_intent_pure intent context :
  (∃ refined, ∀ s, _refine_intent_with_context intent context s = Ok refined s) ∨
  (∃ e, ∀ s, _refine_intent_with_context intent context s = Raise e s).
Proof.
  unfold _refine_intent_with_context.
  repeat case_match; first [left; eexists; intros ?; reflexivity
                           |right; eexists; intros ?; reflexivity].
Qed.

Lemma recognize_intent_pure text context :
  (∃ intent, ∀ s, _recognize_intent text context s =
                  Ok intent (emit (LogDebug (MRecognized (primary intent)
                                               (confidence intent))) s)) ∨
  (∃ e, ∀ s, _recognize_intent text context s = Raise e s).
Proof.
  unfold _recognize_intent, bind.
  destruct (context_given context).
  - match goal with
    | |- context [_refine_intent_with_context ?i ?c] =>
        destruct (refine_intent_pure i c) as [[refined Hr]|[e Hr]]
    end.
    + left. exists refined. intros s. by rewrite Hr.
    + right. exists e. intros s. by rewrite Hr.
  - left. eexists. intros s. reflexivity.
Qed.

(** C8: on ["remind me to call mom at 5pm"] without context the
    classifier returns, on every state, the label [reminder] with
    confidence 0.8 and the entity [time = "5pm"], which is not empty. *)
#[warnings="-inexact-float"]
Theorem classify_remind_call_mom (s : engine) :
  ∃ intent s',
    _recognize_intent "remind me to call mom at 5pm" None s = Ok intent s' ∧
    primary intent = "reminder" ∧
    confidence intent = 0.8%float ∧
    entities intent !! "time" = Some (VStr "5pm") ∧
    "5pm" ≠ "".
Proof.
  eexists _, _. split.
  - unfold _recognize_intent, bind. simpl context_given. cbv iota.
    unfold ret at 1. unfold log_debug, modify, ret. reflexivity.
  - vm_compute. repeat split; congruence.
Qed.

(** C9: the result of [_recognize_intent] on a text and a context is the
    same on any two engine states (the same intent returned, or the same
    exception raised), so it is a function of the text and the context
    alone; and a call leaves the task queue, the recurring table, the
    behaviour history, the patterns, the flag and the file as they were. *)
Theorem classification_is_pure (text : string) (context : option dict)
    (s1 s2 : engine) :
  match _recognize_intent text context s1, _recognize_intent text context s2 with
  | Ok intent1 _, Ok intent2 _ => intent1 = intent2
  | Raise e1 _, Raise e2 _ => e1 = e2
  | _, _ => False
  end ∧
  let s1' := final (_recognize_intent text context s1) in
  task_queue s1' = task_queue s1 ∧
  recurring_tasks s1' = recurring_tasks s1 ∧
  behavior_history s1' = behavior_history s1 ∧
  intent_patterns s1' = intent_patterns s1 ∧
  active s1' = active s1 ∧
  intent_file s1' = intent_file s1.
Proof.
  destruct (recognize_intent_pure text context) as [[intent Hr]|[e Hr]];
    rewrite !Hr; simpl; done.
Qed.

(** The other classifications listed with it: a text that matches no rule
    is [unknown] at 0.5, and [morning_routine] at 0.6 when the context gives
    an hour between 5 and 9; a reminder seen in the calendar application
    becomes a [calendar] intent. *)
#[warnings="-inexact-float"]
Example classify_examples :
  let result text context :=
    match _recognize_intent text context init with
    | Ok intent _ => Some (primary intent, confidence intent, entities intent)
    | Raise _ _ => None
    end in
  result "what is the weather" None = Some ("unknown", 0.5%float, ∅) ∧
  result "what is the weather" (Some (<["time" := VDict (<["hour" := VInt 7]> ∅)]> ∅))
    = Some ("morning_routine", 0.6%float, ∅) ∧
  result "Schedule a meeting on March 15" None
    = Some ("calendar", 0.75%float, <["date" := VStr "march 15"]> ∅) ∧
  result "please find for  the best pizza" None
    = Some ("search", 0.7%float, <["query" := VStr "the best pizza"]> ∅) ∧
  result "send a text to Bob" (Some (<["app" := VStr "messaging"]> ∅))
    = Some ("communication", 0.9%float, <["recipient" := VStr "bob"]> ∅) ∧
  result "reminders are fun" None = Some ("unknown", 0.5%float, ∅) ∧
  result "how to help" (Some (<["time" := VStr "noon"]> ∅)) = None.
Proof. vm_compute. repeat split. Qed.

(** ** The behaviour history *)

Lemma keep_last_newest {A} (n : nat) (l : list A) : newest_of (keep_last n l) l.
Proof.
  unfold keep_last, last_n. destruct (n <? length l)%nat.
  - exists (take (length l - n) l). by rewrite take_drop.
  - by exists [].
Qed.

Lemma keep_last_length {A} (n : nat) (l : list A) :
  (length (keep_last n l) ≤ n ∨ keep_last n l = l ∧ length l ≤ n)%nat ∧
  (length (keep_last n l) ≤ n)%nat.
Proof.
  unfold keep_last, last_n. destruct (Nat.ltb_spec n (length l)).
  - rewrite length_drop. split; [left|]; lia.
  - split; [right; split; [done|lia]|lia].
Qed.

Lemma keep_last_short {A} (n : nat) (l : list A) :
  (length l ≤ n)%nat → keep_last n l = l.
Proof.
  intros Hl. unfold keep_last. destruct (Nat.ltb_spec n (length l)); [lia|done].
Qed.

(** X1: whatever the history held, after [_record_behavior] it has at most
    200 entries, the new record is its last entry, and it is the old
    history followed by the new record with only oldest entries dropped; no
    entry is dropped while fewer than 200 were held.  Nothing else of the
    engine is written. *)
Theorem record_behavior_bounded (behavior_data : dict) (s : engine) :
  ∃ s',
    _record_behavior behavior_data s = Ok tt s' ∧
    (length (behavior_history s') ≤ 200)%nat ∧
    last (behavior_history s') = Some behavior_data ∧
    newest_of (behavior_history s') (behavior_history s ++ [behavior_data]) ∧
    ((length (behavior_history s) < 200)%nat →
       behavior_history s' = behavior_history s ++ [behavior_data]) ∧
    task_queue s' = task_queue s ∧
    recurring_tasks s' = recurring_tasks s ∧
    intent_patterns s' = intent_patterns s ∧
    events s' = events s ∧
    intent_file s' = intent_file s.
Proof.
  eexists. split; [reflexivity|]. simpl. split_and!; try done.
  - apply keep_last_length.
  - apply last_keep_last. lia.
  - apply keep_last_newest.
  - intros Hlen. apply keep_last_short. rewrite length_app. simpl. lia.
Qed.


Section Preserves.
Variable P : engine → Prop.

Lemma preserves_ret {A} (a : A) : preserves P (ret a).
Proof. by intros s. Qed.

Lemma preserves_raise {A} e : preserves P (@raise A e).
Proof. by intros s. Qed.

Lemma preserves_gets {A} (f : engine → A) : preserves P (gets f).
Proof. by intros s. Qed.

Lemma preserves_lift {A} (o : exn + A) : preserves P (lift o).
Proof. destruct o; [apply preserves_raise|apply preserves_ret]. Qed.

Lemma preserves_modify f : (∀ s, P s → P (f s)) → preserves P (modify f).
Proof. intros Hf s. apply Hf. Qed.

Lemma preserves_bind {A B} (m : M A) (k : A → M B) :
  preserves P m → (∀ a, preserves P (k a)) → preserves P (bind m k).
Proof.
  intros Hm Hk s Hs. unfold bind. specialize (Hm s Hs).
  destruct (m s) as [a s1|e s1]; simpl in *; [|done].
  by apply Hk.
Qed.

Lemma preserves_try_except {A} (m : M A) (h : exn → M A) :
  preserves P m → (∀ e, preserves P (h e)) → preserves P (try_except m h).
Proof.
  intros Hm Hh s Hs. unfold try_except. specialize (Hm s Hs).
  destruct (m s) as [a s1|e s1]; simpl in *; [done|].
  by apply Hh.
Qed.

(** What [P] has to allow: log lines and sleeps, writes of the file, of the
    flag and of the patterns, a cut of the history, a new behaviour record,
    and writes of the queue and of the recurring table. *)
Hypothesis P_emit : ∀ e s, P s → P (emit e s).
Hypothesis P_file : ∀ f s, P s → P (set_intent_file f s).
Hypothesis P_active : ∀ b s, P s → P (set_active b s).
Hypothesis P_patterns : ∀ p s, P s → P (set_intent_patterns p s).
Hypothesis P_cut : ∀ n s, (0 < n ≤ 200)%nat → P s →
  P (set_behavior_history (keep_last n (behavior_history s)) s).
Hypothesis P_record : ∀ b s, P s →
  P (set_behavior_history (keep_last 200 (behavior_history s ++ [b])) s).
Hypothesis P_queue : ∀ q s, P s → P (set_task_queue q s).
Hypothesis P_recurring : ∀ r s, P s → P (set_recurring_tasks r s).

Lemma preserves_emit e : preserves P (modify (emit e)).
Proof. apply preserves_modify. intros. by apply P_emit. Qed.

Lemma saved_state_keeps last_updated write_ok s :
  P s → P (saved_state last_updated write_ok s).
Proof.
  intros Hs. unfold saved_state.
  destruct write_ok; apply P_emit; [apply P_file|]; (apply P_cut; [lia|done]).
Qed.

Lemma preserves_save last_updated write_ok :
  preserves P (save_intent_data last_updated write_ok).
Proof.
  intros s Hs. rewrite save_intent_data_run. simpl. by apply saved_state_keeps.
Qed.

Lemma preserves_execute_task timestamp task :
  preserves P (_execute_task timestamp task).
Proof.
  unfold _execute_task.
  apply preserves_bind; [apply preserves_emit|]. intros _.
  apply preserves_try_except.
  - apply preserves_bind.
    { apply preserves_modify. intros. by apply P_record. }
    intros _. apply preserves_bind.
    { repeat case_match; first [apply preserves_emit|apply preserves_ret]. }
    intros _. apply preserves_bind; [apply preserves_emit|]. intros _.
    apply preserves_ret.
  - intros e. apply preserves_bind; [apply preserves_emit|]. intros _.
    apply preserves_ret.
Qed.

Lemma preserves_del_loop idx : preserves P (del_loop idx).
Proof.
  induction idx as [|i idx IH]; simpl; [apply preserves_ret|].
  apply preserves_bind; [apply preserves_gets|]. intros q.
  destruct (i <? length q)%nat; [|apply preserves_raise].
  apply preserves_bind; [|done]. apply preserves_modify. intros. by apply P_queue.
Qed.

Lemma preserves_sweep_loop execute now q :
  (∀ i task, preserves P (execute i task)) →
  ∀ i acc, preserves P (sweep_loop execute now i q acc).
Proof.
  intros Hexec. induction q as [|t q IH]; intros i acc; simpl.
  { apply preserves_ret. }
  assert (Hrun : preserves P
    (success <~ execute i t ;;
     if success || truthy (dict_get t "remove_on_failure" (VBool true))
     then sweep_loop execute now (S i) q (acc ++ [i])
     else sweep_loop execute now (S i) q acc)).
  { apply preserves_bind; [done|]. intros success.
    destruct (success || _); apply IH. }
  destruct (t !! "scheduled_time") as [v|]; [|done].
  apply preserves_bind; [apply preserves_lift|]. intros scheduled_time.
  destruct (now >=? scheduled_time); [done|apply IH].
Qed.

Lemma preserves_process_task_queue now clock :
  preserves P (_process_task_queue now clock).
Proof.
  unfold _process_task_queue, process_task_queue_with.
  apply preserves_bind; [apply preserves_gets|]. intros q.
  apply preserves_bind; [|intros; apply preserves_del_loop].
  apply preserves_sweep_loop. intros. apply preserves_execute_task.
Qed.

Lemma preserves_check_recurring_tasks now draws :
  preserves P (_check_recurring_tasks now draws).
Proof.
  intros s Hs. rewrite check_recurring_tasks_run. simpl.
  assert (P (fired_state now (sweep_fired now draws 0 (recurring_tasks s)) s)).
  { unfold fired_state. by apply P_recurring, P_queue. }
  by destruct (sweep_raises now draws 0 (recurring_tasks s)).
Qed.

Lemma preserves_add_patterns identified found :
  ∀ k, preserves P (add_patterns identified k found).
Proof.
  induction found as [|c found IH]; intros k; simpl; [apply preserves_ret|].
  apply preserves_bind; [|done]. apply preserves_modify. intros. by apply P_patterns.
Qed.

Lemma preserves_analyze env : preserves P (_analyze_behavior_patterns env).
Proof.
  unfold _analyze_behavior_patterns.
  destruct (_ <? _)%float; [apply preserves_ret|].
  apply preserves_bind; [apply preserves_emit|]. intros _.
  apply preserves_bind; [apply preserves_gets|]. intros recent.
  apply preserves_bind; [apply preserves_add_patterns|]. intros _.
  destruct (_ ++ _); [apply preserves_ret|].
  apply preserves_bind; [apply preserves_emit|]. intros _.
  apply preserves_bind; [apply preserves_save|]. intros _.
  apply preserves_ret.
Qed.

Lemma preserves_cycle env : preserves P (cycle env).
Proof.
  unfold cycle.
  apply preserves_bind; [apply preserves_process_task_queue|]. intros _.
  apply preserves_bind; [apply preserves_check_recurring_tasks|]. intros _.
  apply preserves_bind; [apply preserves_analyze|]. intros _.
  apply preserves_bind; [|intros; apply preserves_emit].
  destruct (_ <? _)%float; [|apply preserves_ret].
  apply preserves_bind; [apply preserves_save|]. intros _.
  apply preserves_ret.
Qed.

Lemma preserves_loop_iteration env : preserves P (loop_iteration env).
Proof.
  unfold loop_iteration.
  apply preserves_bind; [apply preserves_gets|]. intros [|]; [|apply preserves_ret].
  apply preserves_bind; [|intros; apply preserves_ret].
  apply preserves_try_except; [apply preserves_cycle|]. intros e.
  apply preserves_bind; [apply preserves_emit|]. intros _. apply preserves_emit.
Qed.

Lemma preserves_loop_turns others envs :
  (∀ k, preserves P (modify (others k))) →
  ∀ k, preserves P (loop_turns others k envs).
Proof.
  intros Hothers. induction envs as [|env envs IH]; intros k; simpl.
  { apply preserves_ret. }
  apply preserves_bind; [apply preserves_loop_iteration|]. intros [|].
  - apply preserves_bind; [apply Hothers|]. intros _. apply IH.
  - apply preserves_ret.
Qed.

Lemma preserves_add_task task_data created save_time write_ok :
  preserves P (add_task task_data created save_time write_ok).
Proof.
  intros s Hs. rewrite add_task_run.
  destruct (has_key task_data "type"); simpl; [|by apply P_emit].
  apply saved_state_keeps. by apply P_emit, P_queue.
Qed.

Lemma preserves_add_recurring_task task_data created save_time write_ok :
  preserves P (add_recurring_task task_data created save_time write_ok).
Proof.
  intros s Hs. rewrite add_recurring_task_run.
  destruct (has_key task_data "type"); [|by apply P_emit].
  destruct (existsb (has_key task_data) recurrence_keys); [|by apply P_emit].
  apply saved_state_keeps. by apply P_emit, P_recurring.
Qed.

Lemma preserves_remove_task task_id save_time write_ok :
  preserves P (remove_task task_id save_time write_ok).
Proof.
  intros s Hs. rewrite remove_task_run.
  destruct (_ && _); simpl; [|by apply P_emit].
  apply saved_state_keeps. by apply P_emit, P_queue.
Qed.

Lemma preserves_stop : preserves P stop_background_processing.
Proof.
  unfold stop_background_processing.
  apply preserves_bind; [apply preserves_gets|]. intros [|]; simpl.
  - apply preserves_bind; [apply preserves_modify; intros; by apply P_active|].
    intros _. apply preserves_bind; [apply preserves_emit|]. intros _.
    apply preserves_ret.
  - apply preserves_ret.
Qed.

Lemma preserves_recognize_intent text context :
  preserves P (_recognize_intent text context).
Proof.
  intros s Hs.
  destruct (recognize_intent_pure text context) as [[intent Hr]|[e Hr]];
    rewrite Hr; simpl; [by apply P_emit|done].
Qed.
End Preserves.

Lemma history_bounded_cut n s :
  (0 < n ≤ 200)%nat → history_bounded s →
  history_bounded (set_behavior_history (keep_last n (behavior_history s)) s).
Proof.
  intros Hn _. unfold history_bounded. simpl.
  pose proof (proj2 (keep_last_length n (behavior_history s))). lia.
Qed.

Lemma history_bounded_record b s :
  history_bounded s →
  history_bounded
    (set_behavior_history (keep_last 200 (behavior_history s ++ [b])) s).
Proof. intros _. unfold history_bounded. simpl. apply keep_last_length. Qed.



(** ** A timestamp that does not read back *)

Section SweepRaises.
Variable execute : nat → dict → M bool.
Variable now : datetime.
Variable succeeds : nat → dict → bool.
Variable effect : nat → dict → engine → engine.
Hypothesis execute_returns :
  ∀ i task s, execute i task s = Ok (succeeds i task) (effect i task s).

(** The loop raises at the first entry whose [scheduled_time] does not read
    back, after executing the due entries before it. *)
Lemma sweep_loop_raises pre : ∀ bad post v e i acc s,
  Forall well_timed pre →
  bad !! "scheduled_time" = Some v →
  fromisoformat v = inl e →
  sweep_loop execute now i (pre ++ bad :: post) acc s =
  Raise e (run_entries effect (due_entries now i pre) s).
Proof.
  induction pre as [|t pre IH]; intros bad post v e i acc s Hpre Hbad Hv.
  - simpl. rewrite Hbad. unfold bind. by rewrite Hv.
  - apply Forall_cons in Hpre as [Ht Hpre].
    cbn [app sweep_loop due_entries].
    unfold well_timed in Ht. unfold due.
    destruct (t !! "scheduled_time") as [v'|] eqn:Hv'.
    + destruct v'; try done. unfold bind at 1. simpl.
      rewrite Z.geb_leb. destruct (Z.leb_spec t0 now) as [Hle|Hgt].
      * rewrite bool_decide_eq_true_2 by done. simpl.
        unfold bind. rewrite execute_returns.
        destruct (succeeds i t || _); by erewrite IH.
      * rewrite bool_decide_eq_false_2 by lia. simpl. by erewrite IH.
    + simpl. unfold bind. rewrite execute_returns.
      destruct (succeeds i t || _); by erewrite IH.
Qed.
End SweepRaises.

Lemma process_task_queue_raises now clock s pre bad post v e :
  task_queue s = pre ++ bad :: post →
  Forall well_timed pre →
  bad !! "scheduled_time" = Some v →
  fromisoformat v = inl e →
  _process_task_queue now clock s =
  Raise e (run_executions clock (due_entries now 0 pre) s).
Proof.
  intros Hq Hpre Hbad Hv. unfold _process_task_queue, process_task_queue_with.
  unfold bind at 1. unfold gets at 1. rewrite Hq. unfold bind.
  erewrite (sweep_loop_raises _ now (λ _ _, true)
              (λ i task s, final (_execute_task (clock i) task s))); try done.
  intros. apply execute_task_ok.
Qed.

Lemma run_executions_queue clock entries s :
  task_queue (run_executions clock entries s) = task_queue s.
Proof.
  unfold run_executions. apply run_entries_queue. intros. apply execute_task_queue.
Qed.

(** X4: when the queue holds a task whose [scheduled_time] does not read
    back as a datetime, the sweep raises at the first such task: the due
    tasks before it have been executed, no task at all is deleted, and the
    tasks after it are not looked at.  So the same happens on every later
    sweep: the queue never loses a task, and the due tasks before the
    unreadable one are executed again each time. *)
Theorem unreadable_timestamp_blocks_queue (now : datetime)
    (clock : nat → datetime) (s : engine) (pre post : list dict) (bad : dict)
    (v : value) (e : exn) :
  task_queue s = pre ++ bad :: post →
  Forall well_timed pre →
  bad !! "scheduled_time" = Some v →
  fromisoformat v = inl e →
  _process_task_queue now clock s =
    Raise e (run_executions clock (due_entries now 0 pre) s) ∧
  task_queue (final (_process_task_queue now clock s)) = task_queue s ∧
  ∀ sweeps,
    task_queue (after_sweeps sweeps s) = task_queue s ∧
    ∀ now' clock',
      final (_process_task_queue now' clock' (after_sweeps sweeps s)) =
      run_executions clock' (due_entries now' 0 pre) (after_sweeps sweeps s).
Proof.
  intros Hq Hpre Hbad Hv.
  split; [by eapply process_task_queue_raises|].
  split.
  { erewrite process_task_queue_raises by done. simpl. apply run_executions_queue. }
  assert (Hkeep : ∀ sweeps s0, task_queue s0 = pre ++ bad :: post →
            task_queue (after_sweeps sweeps s0) = task_queue s0).
  { induction sweeps as [|[now0 clock0] sweeps IH]; intros s0 Hs0; [done|].
    unfold after_sweeps in *. simpl.
    erewrite (process_task_queue_raises now0 clock0 s0) by done. simpl.
    rewrite IH; rewrite run_executions_queue; done. }
  intros sweeps. split; [by apply Hkeep|].
  intros now' clock'.
  erewrite process_task_queue_raises; [done| |done..].
  by rewrite Hkeep.
Qed.

Lemma unreadable_timestamp_blocks_queue_witness :
  let s := set_task_queue [queue_a; queue_bad; queue_c] init in
  (task_queue s = [queue_a] ++ queue_bad :: [queue_c] ∧
   Forall well_timed [queue_a] ∧
   queue_bad !! "scheduled_time" = Some (VStr "tomorrow") ∧
   fromisoformat (VStr "tomorrow") = inl ValueError) ∧
  _process_task_queue 50 (λ _, 50) s =
    Raise ValueError (run_executions (λ _, 50) (due_entries 50 0 [queue_a]) s) ∧
  task_queue (final (_process_task_queue 50 (λ _, 50) s)) = task_queue s ∧
  ∀ sweeps,
    task_queue (after_sweeps sweeps s) = task_queue s ∧
    ∀ now' clock',
      final (_process_task_queue now' clock' (after_sweeps sweeps s)) =
      run_executions clock' (due_entries now' 0 [queue_a]) (after_sweeps sweeps s).
Proof.
  assert (H1 : task_queue (set_task_queue [queue_a; queue_bad; queue_c] init)
               = [queue_a] ++ queue_bad :: [queue_c]) by reflexivity.
  assert (H2 : Forall well_timed [queue_a]) by (repeat constructor).
  assert (H3 : queue_bad !! "scheduled_time" = Some (VStr "tomorrow")) by reflexivity.
  assert (H4 : fromisoformat (VStr "tomorrow") = inl ValueError) by reflexivity.
  split; [by repeat split|].
  exact (unreadable_timestamp_blocks_queue 50 (λ _, 50) _ _ _ _ _ _ H1 H2 H3 H4).
Defined.

(** ** Records that stop the recurring sweep or are skipped by it *)

Lemma sweep_fired_stops now draws pre : ∀ i bad post e,
  (∀ k earlier, pre !! k = Some earlier →
                ∃ b, fires now (draws (i + k)%nat) earlier = inr b) →
  fires now (draws (i + length pre)%nat) bad = inl e →
  sweep_fired now draws i (pre ++ bad :: post) = sweep_fired now draws i pre ∧
  sweep_raises now draws i (pre ++ bad :: post) = Some e ∧
  length (sweep_fired now draws i pre) = length pre.
Proof.
  induction pre as [|r pre IH]; intros i bad post e Hpre Hbad; simpl in *.
  - rewrite Nat.add_0_r in Hbad. by rewrite Hbad.
  - destruct (Hpre 0%nat r eq_refl) as [b Hb]. rewrite Nat.add_0_r in Hb.
    rewrite Hb. destruct (IH (S i) bad post e) as (H1 & H2 & H3).
    + intros k earlier Hk. replace (S i + k)%nat with (i + S k)%nat by lia.
      by apply (Hpre (S k)).
    + by replace (S i + length pre)%nat with (i + S (length pre))%nat by lia.
    + rewrite H1, H2. simpl. by rewrite H3.
Qed.

Lemma update_marked_app {A} (f : A → A) marks : ∀ (pre rest : list A),
  length marks = length pre →
  update_marked f marks (pre ++ rest) = update_marked f marks pre ++ rest.
Proof.
  induction marks as [|b marks IH]; intros [|t pre] rest Hlen; try done.
  simpl in *. by rewrite IH by lia.
Qed.

Lemma keep_marked_app {A} marks : ∀ (pre rest : list A),
  length marks = length pre →
  keep_marked marks (pre ++ rest) = keep_marked marks pre.
Proof.
  induction marks as [|b marks IH]; intros [|t pre] rest Hlen; try done.
  simpl in *. by rewrite IH by lia.
Qed.



Lemma update_marked_none {A} (f : A → A) (q : list A) n :
  update_marked f (replicate n false) q = q.
Proof.
  revert q. induction n as [|n IH]; intros [|t q]; simpl; try done. by rewrite IH.
Qed.

Lemma keep_marked_none {A} (q : list A) n :
  keep_marked (replicate n false) q = [].
Proof. revert q. induction n as [|n IH]; intros [|t q]; simpl; auto. Qed.

Lemma sweep_fired_inactive now draws recs : ∀ i,
  Forall (λ task, truthy (dict_get task "active" (VBool true)) = false) recs →
  sweep_fired now draws i recs = replicate (length recs) false ∧
  sweep_raises now draws i recs = None.
Proof.
  induction recs as [|r recs IH]; intros i Hrecs; simpl; [done|].
  apply Forall_cons in Hrecs as [Hr Hrecs].
  unfold fires. rewrite Hr. simpl. destruct (IH (S i) Hrecs) as [-> ->]. done.
Qed.

(** X6: a record whose [active] field is false (in Python's sense) is
    skipped before any other of its fields is read: it never fires and never
    makes the sweep raise, even when its [last_execution] or
    [interval_hours] is unreadable; a sweep over a table whose records are
    all inactive returns and leaves the whole engine as it was. *)
Theorem inactive_records_are_skipped (now : datetime) (draws : nat → float)
    (s : engine) :
  Forall (λ task, truthy (dict_get task "active" (VBool true)) = false)
    (recurring_tasks s) →
  (∀ task draw, task ∈ recurring_tasks s → fires now draw task = inr false) ∧
  _check_recurring_tasks now draws s = Ok tt s.
Proof.
  intros Hrecs. split.
  - intros task draw Hin. rewrite Forall_forall in Hrecs.
    unfold fires. by rewrite (Hrecs _ Hin).
  - rewrite check_recurring_tasks_run.
    destruct (sweep_fired_inactive now draws (recurring_tasks s) 0 Hrecs) as [-> ->].
    simpl. unfold fired_state. rewrite update_marked_none, keep_marked_none.
    simpl. rewrite app_nil_r. by destruct s.
Qed.

Lemma inactive_records_are_skipped_witness :
  let s := set_recurring_tasks [record_off] init in
  Forall (λ task, truthy (dict_get task "active" (VBool true)) = false)
    (recurring_tasks s) ∧
  (∀ task draw, task ∈ recurring_tasks s → fires 1000 draw task = inr false) ∧
  _check_recurring_tasks 1000 (λ _, 0.5%float) s = Ok tt s.
Proof.
  assert (H : Forall (λ task, truthy (dict_get task "active" (VBool true)) = false)
                (recurring_tasks (set_recurring_tasks [record_off] init))).
  { repeat constructor. }
  split; [exact H|].
  exact (inactive_records_are_skipped 1000 (λ _, 0.5%float) _ H).
Defined.

(** ** Weekly and interval records over time *)

(** The decision for an active weekly record (no [interval_hours]). *)
Lemma fires_weekly now draw (task : dict) day :
  truthy (dict_get task "active" (VBool true)) = true →
  task !! "interval_hours" = None →
  task !! "day_of_week" = Some day →
  (task !! "last_execution" = None →
     fires now draw task = inr (eq_int (weekday now) day && hour_matches now task)) ∧
  (∀ last, task !! "last_execution" = Some (VIso last) →
     fires now draw task =
       inr (eq_int (weekday now) day && negb (date last =? date now)
            && hour_matches now task)).
Proof.
  intros Hact Hint Hday. unfold fires, should_execute, hour_matches.
  rewrite Hact, Hint, Hday. simpl. split.
  - intros ->. by destruct (eq_int (weekday now) day).
  - intros last ->. simpl.
    by destruct (eq_int (weekday now) day), (date last =? date now).
Qed.



(** X8: an active interval record that is due stays due: if it fires at
    [now], with the same [last_execution] it fires at every later time too,
    whatever the random draw; so a sweep that comes late still fires it. *)
Theorem interval_due_stays_due (now now' : datetime) (draw draw' : float)
    (task : dict) (h : value) :
  task !! "interval_hours" = Some h →
  fires now draw task = inr true →
  now ≤ now' →
  fires now' draw' task = inr true.
Proof.
  intros Hint Hfire Hle. unfold fires, should_execute in *. rewrite Hint in *.
  destruct (negb (truthy (dict_get task "active" (VBool true)))); [done|].
  destruct (timedelta_hours h) as [e|interval].
  { by destruct (task !! "last_execution") as [v|]; [destruct (fromisoformat v)|]. }
  destruct (task !! "last_execution") as [v|]; [|done].
  destruct (fromisoformat v) as [e|last]; [done|].
  injection Hfire as Hfire. f_equal.
  rewrite Z.geb_leb in *. apply Z.leb_le in Hfire. apply Z.leb_le. lia.
Qed.

Lemma interval_due_stays_due_witness :
  (daily_cleanup !! "interval_hours" = Some (VInt 24) ∧
   fires 1000 0.5%float daily_cleanup = inr true ∧
   1000 ≤ 2000) ∧
  fires 2000 0.5%float daily_cleanup = inr true.
Proof.
  assert (H1 : daily_cleanup !! "interval_hours" = Some (VInt 24)) by reflexivity.
  assert (H2 : fires 1000 0.5%float daily_cleanup = inr true) by reflexivity.
  assert (H3 : 1000 ≤ 2000) by lia.
  split; [by repeat split|].
  exact (interval_due_stays_due 1000 2000 0.5%float 0.5%float _ _ H1 H2 H3).
Defined.

(** A weekly record with an hour can be missed: it fires at 9h on a Monday
    and no longer at 10h the same day if no sweep was made at 9h. *)
Example weekly_hour_can_be_missed :
  let task := <["hour_of_day" := VInt 9]> monday_report in
  fires (7 * usec_per_day + 9 * usec_per_hour) 0.5%float task = inr true ∧
  fires (7 * usec_per_day + 10 * usec_per_hour) 0.5%float task = inr false.
Proof. split; reflexivity. Qed.

(** ** Adding then removing a task *)

(** X9: [remove_task] with the index [len(queue)] taken before an
    [add_task] that succeeded undoes it: the call returns [True] and the
    queue is the one before the addition; the recurring table and the
    patterns are as before too (the history may have been cut by the two
    saves). *)
Theorem add_then_remove_restores_queue (task_data : dict)
    (created t1 t2 : datetime) (ok1 ok2 : bool) (s : engine) :
  is_Some (task_data !! "type") →
  ∃ s1 s2,
    add_task task_data created t1 ok1 s = Ok true s1 ∧
    length (task_queue s1) = S (length (task_queue s)) ∧
    remove_task (Z.of_nat (length (task_queue s))) t2 ok2 s1 = Ok true s2 ∧
    task_queue s2 = task_queue s ∧
    recurring_tasks s2 = recurring_tasks s ∧
    intent_patterns s2 = intent_patterns s ∧
    newest_of (behavior_history s2) (behavior_history s).
Proof.
  intros Htype. rewrite add_task_run. apply has_key_true in Htype. rewrite Htype.
  set (s1 := saved_state t1 ok1 _).
  assert (Hq1 : task_queue s1 = task_queue s ++ [created_task created task_data]).
  { subst s1. by rewrite saved_state_queue. }
  exists s1. eexists. split; [done|].
  split; [rewrite Hq1, length_app; simpl; lia|].
  rewrite remove_task_run, Hq1, length_app. simpl.
  replace (0 <=? Z.of_nat (length (task_queue s))) with true
    by (symmetry; apply Z.leb_le; lia).
  replace (Z.of_nat (length (task_queue s))
           <? Z.of_nat (length (task_queue s) + 1)) with true
    by (symmetry; apply Z.ltb_lt; lia).
  simpl. split; [reflexivity|].
  rewrite saved_state_queue, saved_state_recurring. simpl.
  rewrite Nat2Z.id, delete_middle, app_nil_r.
  split; [done|]. subst s1. rewrite saved_state_recurring. simpl.
  split; [done|]. split.
  - unfold saved_state. by destruct ok1, ok2.
  - assert (Hcut : ∀ t ok s0, newest_of (behavior_history (saved_state t ok s0))
                                (behavior_history s0)).
    { intros t ok s0. unfold saved_state. destruct ok; simpl; apply keep_last_newest. }
    destruct (Hcut t2 ok2 (emit (LogInfo (MRemoved (Z.of_nat (length (task_queue s)))))
                (set_task_queue (task_queue s)
                   (saved_state t1 ok1
                      (emit (LogInfo (MAdded (dict_get (created_task created task_data)
                                                "type" VNone)))
                         (set_task_queue (task_queue s ++ [created_task created task_data])
                            s)))))) as [d2 Hd2].
    destruct (Hcut t1 ok1 (emit (LogInfo (MAdded (dict_get (created_task created task_data)
                                                "type" VNone)))
                         (set_task_queue (task_queue s ++ [created_task created task_data])
                            s))) as [d1 Hd1].
    simpl in Hd1, Hd2. exists (d1 ++ d2). rewrite <- app_assoc.
    rewrite Hd1 at 1. f_equal. exact Hd2.
Qed.

Lemma add_then_remove_restores_queue_witness :
  is_Some (queue_a !! "type") ∧
  ∃ s1 s2,
    add_task queue_a 10 11 true (set_task_queue [queue_b] init) = Ok true s1 ∧
    length (task_queue s1) = S (length (task_queue (set_task_queue [queue_b] init))) ∧
    remove_task (Z.of_nat (length (task_queue (set_task_queue [queue_b] init)))) 12 true s1
      = Ok true s2 ∧
    task_queue s2 = task_queue (set_task_queue [queue_b] init) ∧
    recurring_tasks s2 = recurring_tasks (set_task_queue [queue_b] init) ∧
    intent_patterns s2 = intent_patterns (set_task_queue [queue_b] init) ∧
    newest_of (behavior_history s2) (behavior_history (set_task_queue [queue_b] init)).
Proof.
  assert (H : is_Some (queue_a !! "type")) by (by eexists).
  split; [exact H|].
  exact (add_then_remove_restores_queue queue_a 10 11 12 true true
           (set_task_queue [queue_b] init) H).
Defined.

(** ** Pattern identifiers *)

Lemma pattern_name_inj k1 k2 : pattern_name k1 = pattern_name k2 → k1 = k2.
Proof.
  unfold pattern_name. intros H. apply (inj (String.app "pattern_")) in H.
  by apply (inj pretty) in H.
Qed.

Lemma numbered_fresh m : numbered m → m !! pattern_name (size m + 1) = None.
Proof.
  intros Hm. apply eq_None_not_Some. intros Hsome.
  destruct (Hm _ Hsome) as (k & Hk & Heq). apply pattern_name_inj in Heq. lia.
Qed.

Lemma numbered_insert m p :
  numbered m → numbered (<[pattern_name (size m + 1) := p]> m).
Proof.
  intros Hm key Hkey.
  rewrite map_size_insert_None by by apply numbered_fresh.
  destruct (decide (key = pattern_name (size m + 1))) as [->|Hne].
  - exists (size m + 1)%nat. split; [lia|done].
  - rewrite lookup_insert_ne in Hkey by done.
    destruct (Hm _ Hkey) as (k & Hk & ->). exists k. split; [lia|done].
Qed.

Lemma add_patterns_numbered identified found : ∀ k s,
  numbered (intent_patterns s) →
  ∃ s',
    add_patterns identified k found s = Ok tt s' ∧
    numbered (intent_patterns s') ∧
    intent_patterns s ⊆ intent_patterns s' ∧
    size (intent_patterns s') = (size (intent_patterns s) + length found)%nat ∧
    task_queue s' = task_queue s ∧
    recurring_tasks s' = recurring_tasks s ∧
    behavior_history s' = behavior_history s.
Proof.
  induction found as [|c found IH]; intros k s Hs; simpl.
  { exists s. split_and!; try done; lia. }
  unfold bind, modify.
  match goal with |- context [set_intent_patterns ?m s] => set (m1 := m) end.
  assert (Hm1 : m1 = <[pattern_name (size (intent_patterns s) + 1) :=
                       {| p_type := c_type c; p_confidence := c_confidence c;
                          p_description := c_description c;
                          p_identified := identified k;
                          p_pattern_data := c_data c |}]> (intent_patterns s))
    by reflexivity.
  destruct (IH (S k) (set_intent_patterns m1 s)) as (s' & Hrun & Hnum & Hsub & Hsize & Hq & Hr & Hh).
  { simpl. rewrite Hm1. by apply numbered_insert. }
  exists s'. split; [done|]. split; [done|]. simpl in *. split_and!; try done.
  - etrans; [|exact Hsub]. rewrite Hm1. apply insert_subseteq.
    by apply numbered_fresh.
  - rewrite Hsize, Hm1, map_size_insert_None by by apply numbered_fresh. lia.
Qed.



(** From the empty map two analyses that find everything give the four
    identifiers [pattern_1] to [pattern_4]; but on a map that is not
    numbered that way (one pattern, named [pattern_2]) both discoveries of
    one analysis are stored under [pattern_2]: the old pattern and the
    first discovery are overwritten and the map still holds one pattern. *)
Example pattern_ids_examples :
  let after env s := intent_patterns (final (_analyze_behavior_patterns env s)) in
  let twice := after finding_analysis
                 (final (_analyze_behavior_patterns finding_analysis init)) in
  (size twice = 4%nat ∧
   p_type <$> twice !! "pattern_1" = Some "time_pattern" ∧
   p_type <$> twice !! "pattern_4" = Some "sequence_pattern") ∧
  let odd := set_intent_patterns
               (<["pattern_2" := {| p_type := "old"; p_confidence := 0%float;
                                    p_description := ""; p_identified := 0;
                                    p_pattern_data := VNone |}]> ∅) init in
  p_type <$> after finding_analysis odd !! "pattern_2" = Some "sequence_pattern" ∧
  size (after finding_analysis odd) = 1%nat.
Proof. vm_compute. repeat split. Qed.

(** ** From the recurring sweep to the next queue sweep *)

Lemma queue_copy_due now now' task : now ≤ now' → due now' (queue_copy now task) = true.
Proof.
  intros Hle. unfold due, queue_copy. rewrite lookup_insert_eq.
  by apply bool_decide_eq_true_2.
Qed.

Lemma queue_copy_well_timed now task : well_timed (queue_copy now task).
Proof. unfold well_timed, queue_copy. by rewrite lookup_insert_eq. Qed.

Lemma due_entries_app now q1 : ∀ i q2,
  due_entries now i (q1 ++ q2) =
  due_entries now i q1 ++ due_entries now (i + length q1) q2.
Proof.
  induction q1 as [|t q1 IH]; intros i q2; simpl.
  - by rewrite Nat.add_0_r.
  - rewrite IH, <- app_assoc. do 3 f_equal. lia.
Qed.

Lemma due_entries_all now : ∀ q i,
  Forall (λ task, due now task = true) q →
  due_entries now i q = imap (λ j task, ((i + j)%nat, task)) q.
Proof.
  induction q as [|t q IH]; intros i Hq; simpl; [done|].
  apply Forall_cons in Hq as [Ht Hq]. rewrite Ht, IH by done. simpl.
  rewrite Nat.add_0_r. f_equal. apply imap_ext. intros j x _. simpl. f_equal. lia.
Qed.

Lemma filter_none_due now (q : list dict) :
  Forall (λ task, due now task = true) q →
  filter (λ task, due now task = false) q = [].
Proof.
  induction 1 as [|t q Ht _ IH]; [done|].
  rewrite filter_cons_False; [done|]. by rewrite Ht.
Qed.

Lemma run_executions_recurring clock entries : ∀ s,
  recurring_tasks (run_executions clock entries s) = recurring_tasks s.
Proof.
  unfold run_executions, run_entries.
  induction entries as [|[i t] entries IH]; intros s; simpl; [done|].
  rewrite IH. by destruct (execute_task_returns (clock i) t s) as (l & _ & ->).
Qed.



(** ** What the classifier returns *)

Lemma lower_char_idemp c : lower_char (lower_char c) = lower_char c.
Proof. destruct c as [[] [] [] [] [] [] [] []]; reflexivity. Qed.

Lemma lower_idemp text : lower (lower text) = lower text.
Proof.
  unfold lower. rewrite String.list_ascii_of_string_of_list_ascii.
  f_equal. rewrite <- list_fmap_compose. apply list_fmap_ext.
  intros i c _. apply lower_char_idemp.
Qed.

(** X12: the classifier does not look at the case of the letters: two
    texts with the same lower-case form get the same result in every
    context and state, and a text gets the result of its lower-case
    form. *)
Theorem classifier_ignores_case (text1 text2 : string) (context : option dict)
    (s : engine) :
  (lower text1 = lower text2 →
   _recognize_intent text1 context s = _recognize_intent text2 context s) ∧
  _recognize_intent (lower text1) context s = _recognize_intent text1 context s.
Proof.
  split.
  - intros Heq. unfold _recognize_intent. by rewrite Heq.
  - unfold _recognize_intent. by rewrite lower_idemp.
Qed.

Ltac in_outcomes :=
  apply list_elem_of_In; vm_compute; repeat ((left; reflexivity) || right).

Lemma match_rules_outcome text intent :
  primary intent = "unknown" → confidence intent = 0.5%float →
  (primary (match_rules text intent), confidence (match_rules text intent))
    ∈ rule_outcomes.
Proof.
  intros Hp Hc. unfold match_rules, rule_outcomes.
  repeat case_match; simpl; rewrite ?Hp, ?Hc; in_outcomes.
Qed.

Lemma refine_outcome intent context refined s s' :
  (primary intent, confidence intent) ∈ rule_outcomes →
  _refine_intent_with_context intent context s = Ok refined s' →
  (primary refined, confidence refined) ∈ rule_outcomes ++ refined_outcomes.
Proof.
  intros Hin Hrun. unfold rule_outcomes in Hin.
  destruct intent as [p c ents ctx]. simpl in Hin.
  unfold _refine_intent_with_context in Hrun.
  unfold rule_outcomes, refined_outcomes.
  repeat (apply elem_of_cons in Hin as [Hin|Hin];
          [injection Hin as -> ->; simpl in Hrun;
           rewrite ?andb_false_r, ?andb_true_r in Hrun;
           repeat (case_match; simpl in *;
                   rewrite ?andb_false_r, ?andb_true_r in *; simplify_eq);
           try (unfold ret, raise in Hrun; simplify_eq; simpl);
           in_outcomes|]).
  by apply elem_of_nil in Hin.
Qed.

(** X13: whenever [_recognize_intent] returns, the label of the intent is
    one of unknown, reminder, calendar, search, communication, help and
    morning_routine, and the pair of its label and confidence is one of
    nine pairs: the six that the rules set and the three that the context
    refinement makes of them.  Hence the confidence lies between 0.5 and 1,
    and a confidence below 0.7 goes with the labels unknown and
    morning_routine only. *)
#[warnings="-inexact-float"]
Theorem recognized_intent_range (text : string) (context : option dict)
    (s s' : engine) (intent : Intent) :
  _recognize_intent text context s = Ok intent s' →
  (primary intent, confidence intent) ∈ rule_outcomes ++ refined_outcomes ∧
  primary intent ∈ ["unknown"; "reminder"; "calendar"; "search"; "communication";
                    "help"; "morning_routine"] ∧
  (0.5 <=? confidence intent)%float = true ∧
  (confidence intent <=? 1)%float = true ∧
  ((confidence intent <? 0.7)%float = true →
   primary intent = "unknown" ∨ primary intent = "morning_routine").
Proof.
  intros Hrun.
  assert (Hin : (primary intent, confidence intent) ∈ rule_outcomes ++ refined_outcomes).
  { unfold _recognize_intent in Hrun.
    set (i0 := match_rules _ _) in Hrun.
    assert (H0 : (primary i0, confidence i0) ∈ rule_outcomes)
      by by apply match_rules_outcome.
    destruct (context_given context).
    - unfold bind at 1 in Hrun.
      destruct (_refine_intent_with_context i0 _ s) as [refined s1|e s1] eqn:Href;
        [|done].
      unfold bind, log_debug, modify, ret in Hrun. simplify_eq.
      by eapply refine_outcome.
    - unfold bind, log_debug, modify, ret in Hrun. simplify_eq.
      apply elem_of_app. by left. }
  split; [done|].
  destruct intent as [p c ents ctx]. simpl in *. clear Hrun.
  unfold rule_outcomes, refined_outcomes in Hin. simpl in Hin.
  repeat (apply elem_of_cons in Hin as [Hin|Hin];
          [simplify_eq; split_and!; [in_outcomes|reflexivity|reflexivity|
            try (intros; by eauto); by vm_compute]|]).
  by apply elem_of_nil in Hin.
Qed.

#[warnings="-inexact-float"]
Lemma recognized_intent_range_witness :
  ∃ intent s',
    _recognize_intent "Remind me" (Some (<["app" := VStr "calendar"]> ∅)) init
      = Ok intent s' ∧
    (primary intent, confidence intent) ∈ rule_outcomes ++ refined_outcomes ∧
    primary intent ∈ ["unknown"; "reminder"; "calendar"; "search"; "communication";
                      "help"; "morning_routine"] ∧
    (0.5 <=? confidence intent)%float = true ∧
    (confidence intent <=? 1)%float = true ∧
    ((confidence intent <? 0.7)%float = true →
     primary intent = "unknown" ∨ primary intent = "morning_routine").
Proof.
  eexists. eexists.
  assert (H : _recognize_intent "Remind me" (Some (<["app" := VStr "calendar"]> ∅)) init
              = Ok _ _) by (vm_compute; reflexivity).
  split; [exact H|].
  exact (recognized_intent_range _ _ _ _ _ H).
Defined.

Lemma refine_raises intent context s :
  _refine_intent_with_context intent context s =
  match context_error (Some context) with
  | Some e => Raise e s
  | None => Ok (match _refine_intent_with_context intent context s with
                | Ok refined _ => refined
                | Raise _ _ => intent
                end) s
  end.
Proof.
  unfold _refine_intent_with_context, context_error.
  destruct (context !! "time") as [v|]; simpl; [|done].
  destruct v; simpl; try done.
  destruct (int_of_value _); simpl; [|done].
  by destruct (_ && _).
Qed.


(** A text with a reminder word, in a context whose [time] entry is a
    string, raises; so does a context whose hour is a string. *)
Example recognize_intent_time_examples :
  _recognize_intent "remind me" (Some (<["time" := VStr "08:00"]> ∅)) init
    = Raise AttributeError init ∧
  _recognize_intent "hello"
    (Some (<["time" := VDict (<["hour" := VStr "8"]> ∅)]> ∅)) init
    = Raise TypeError init ∧
  primary <$> (match _recognize_intent "hello"
                 (Some (<["time" := VDict (<["hour" := VInt 8]> ∅)]> ∅)) init with
               | Ok intent _ => Some intent | Raise _ _ => None end)
    = Some "morning_routine".
Proof. vm_compute. repeat split. Qed.

(** ** Task suggestions *)

Lemma suggestion_candidates_nil now :
  suggestion_candidates now = [] ↔ ¬ suggestion_time now.
Proof.
  unfold suggestion_candidates, suggestion_time.
  destruct (Z.leb_spec 6 (hour now)), (Z.leb_spec (hour now) 9),
    (Z.leb_spec 17 (hour now)), (Z.leb_spec (hour now) 22),
    (Z.leb_spec 5 (weekday now)); simpl; split; intros Hx; try done; try lia;
    try (exfalso; apply Hx; lia).
Qed.

#[warnings="-inexact-float"]
Lemma initial_suggestion_threshold :
  initial_thresholds !! "suggestion" = Some 0.6%float.
Proof. reflexivity. Qed.

#[warnings="-inexact-float"]
Lemma suggestion_candidates_confident now :
  (length (suggestion_candidates now) ≤ 3)%nat ∧
  Forall (λ sg, (0.6 <=? sg_confidence sg)%float = true) (suggestion_candidates now).
Proof.
  unfold suggestion_candidates.
  repeat case_match; simpl; (split; [lia|]); repeat constructor.
Qed.

(** X15: [get_task_suggestions] returns at most three suggestions, each
    with a confidence not below the threshold, in the order of the
    candidates.  Its [except] branch runs exactly when the thresholds have
    no [suggestion] entry and the clock is at a time with a candidate (hour
    6 to 9 or 17 to 22, or a Saturday or Sunday); the result is then empty.
    With the thresholds of [__init__] no candidate is filtered out, so the
    result is empty exactly outside those times. *)
Theorem task_suggestions_meet_threshold (now : datetime)
    (thresholds : gmap string float) :
  let r := get_task_suggestions now thresholds in
  (length (sg_returned r) ≤ 3)%nat ∧
  sublist (sg_returned r) (suggestion_candidates now) ∧
  (∀ threshold, thresholds !! "suggestion" = Some threshold →
     sg_error_logged r = false ∧
     ∀ sg, sg ∈ suggestion_candidates now →
           (sg ∈ sg_returned r ↔ (threshold <=? sg_confidence sg)%float = true)) ∧
  (sg_error_logged r = true ↔
     thresholds !! "suggestion" = None ∧ suggestion_time now) ∧
  (sg_error_logged r = true → sg_returned r = []) ∧
  sg_returned (get_task_suggestions now initial_thresholds) = suggestion_candidates now ∧
  (sg_returned (get_task_suggestions now initial_thresholds) = [] ↔
     ¬ suggestion_time now).
Proof.
  pose proof (suggestion_candidates_nil now) as Hnil.
  pose proof (suggestion_candidates_confident now) as [Hlen Hconf].
  assert (Hinit : sg_returned (get_task_suggestions now initial_thresholds)
                  = suggestion_candidates now).
  { unfold get_task_suggestions.
    destruct (suggestion_candidates now) as [|sg l] eqn:Hc; [done|].
    rewrite initial_suggestion_threshold.
    cbn [sg_returned]. clear Hc Hnil Hlen.
    induction Hconf as [|x l' Hx _ IH]; [done|]. simpl. by rewrite Hx, IH. }
  assert (Hsub : ∀ (f : suggestion → bool) l, sublist (List.filter f l) l).
  { intros f l. induction l as [|x l IH]; simpl; [constructor|].
    destruct (f x); by constructor. }
  cbv zeta. rewrite Hinit. unfold get_task_suggestions.
  destruct (suggestion_candidates now) as [|sg0 l0] eqn:Hc.
  - cbn [sg_returned sg_error_logged length].
    split; [lia|]. split; [constructor|]. split.
    { intros threshold _. split; [done|]. intros sg Hsg. by apply elem_of_nil in Hsg. }
    split. { split; [done|]. intros [_ Ht]. by apply Hnil in Ht. }
    done.
  - assert (Htime : suggestion_time now).
    { destruct (decide (suggestion_time now)) as [|Hn]; [done|]. by apply Hnil in Hn. }
    destruct (thresholds !! "suggestion") as [threshold|] eqn:Hth;
      cbn [sg_returned sg_error_logged].
    + split. { etrans; [apply sublist_length, Hsub|done]. }
      split; [apply Hsub|]. split.
      { intros th' [= <-]. split; [done|]. intros sg Hsg.
        rewrite !list_elem_of_In, filter_In. rewrite <- list_elem_of_In. tauto. }
      split. { split; [done|]. by intros [? _]. }
      done.
    + split; [simpl; lia|]. split; [apply sublist_nil_l|]. split; [done|].
      split; [done|]. done.
Qed.

(** On a Saturday morning at eight the three candidates are returned; a
    threshold of 0.7 keeps the two morning suggestions and drops the
    weekend one; without a [suggestion] threshold the error branch runs. *)
#[warnings="-inexact-float"]
Example task_suggestions_examples :
  let saturday_8 := 5 * usec_per_day + 8 * usec_per_hour in
  (sg_task <$> sg_returned (get_task_suggestions saturday_8 initial_thresholds)) =
    ["Check today's weather"; "Review calendar for today";
     "Check entertainment options"] ∧
  (sg_task <$> sg_returned (get_task_suggestions saturday_8
                              (<["suggestion" := 0.7%float]> ∅))) =
    ["Check today's weather"; "Review calendar for today"] ∧
  get_task_suggestions saturday_8 ∅ = {| sg_returned := []; sg_error_logged := true |} ∧
  get_task_suggestions (12 * usec_per_hour) ∅ =
    {| sg_returned := []; sg_error_logged := false |}.
Proof. vm_compute. repeat split. Qed.

(** ** The scheduler with an unreadable timestamp in the queue *)

Lemma run_executions_keeps clock entries : ∀ s,
  intent_patterns (run_executions clock entries s) = intent_patterns s ∧
  intent_file (run_executions clock entries s) = intent_file s ∧
  active (run_executions clock entries s) = active s.
Proof.
  unfold run_executions, run_entries.
  induction entries as [|[i t] entries IH]; intros s; simpl; [done|].
  destruct (IH (final (_execute_task (clock i) t s))) as (-> & -> & ->).
  by destruct (execute_task_returns (clock i) t s) as (l & _ & ->).
Qed.

Lemma cycle_raises_on_timestamp env s pre bad post v e :
  task_queue s = pre ++ bad :: post →
  Forall well_timed pre →
  bad !! "scheduled_time" = Some v →
  fromisoformat v = inl e →
  cycle env s =
  Raise e (run_executions (c_clock env) (due_entries (c_now_queue env) 0 pre) s).
Proof.
  intros Hq Hpre Hbad Hv. unfold cycle. unfold bind at 1.
  by erewrite process_task_queue_raises.
Qed.

Lemma is_log_not_short_sleep ev : is_log ev → ev ≠ Sleep 10.
Proof. by destruct ev. Qed.

Lemma loop_turns_starved pre bad post v e envs : ∀ k s,
  task_queue s = pre ++ bad :: post →
  Forall well_timed pre →
  bad !! "scheduled_time" = Some v →
  fromisoformat v = inl e →
  ∃ left s' new,
    loop_turns (λ _ s0, s0) k envs s = Ok left s' ∧
    task_queue s' = task_queue s ∧
    recurring_tasks s' = recurring_tasks s ∧
    intent_patterns s' = intent_patterns s ∧
    intent_file s' = intent_file s ∧
    events s' = events s ++ new ∧
    Forall (λ ev, ev ≠ Sleep 10) new.
Proof.
  induction envs as [|env envs IH]; intros k s Hq Hpre Hbad Hv; simpl.
  { exists false, s, []. rewrite app_nil_r. by split_and!. }
  unfold bind. rewrite loop_iteration_run.
  destruct (active s).
  - unfold modify. simpl.
    pose proof (cycle_events env s) as (lines & Hlines & Hev).
    unfold turn_state in *.
    rewrite (cycle_raises_on_timestamp env s pre bad post v e) in * by done.
    set (s1 := run_executions _ _ s) in *.
    destruct (run_executions_keeps (c_clock env)
                (due_entries (c_now_queue env) 0 pre) s) as (Hp & Hf & _).
    pose proof (run_executions_queue (c_clock env)
                  (due_entries (c_now_queue env) 0 pre) s) as Hq1.
    pose proof (run_executions_recurring (c_clock env)
                  (due_entries (c_now_queue env) 0 pre) s) as Hr1.
    fold s1 in Hp, Hf, Hq1, Hr1.
    destruct (IH (S k) (emit (Sleep 60) (emit (LogError (MLoopError e)) s1)))
      as (left & s' & new & Hrun & Hq' & Hr' & Hp' & Hf' & Hev' & Hnew);
      try done.
    { simpl. by rewrite Hq1. }
    exists left, s', (lines ++ [LogError (MLoopError e); Sleep 60] ++ new).
    split; [done|]. simpl in *.
    split; [by rewrite Hq', Hq1|]. split; [by rewrite Hr', Hr1|].
    split; [by rewrite Hp', Hp|]. split; [by rewrite Hf', Hf|].
    split.
    + rewrite Hev', Hev, <- !app_assoc. done.
    + apply Forall_app. split.
      * eapply Forall_impl; [exact Hlines|]. apply is_log_not_short_sleep.
      * by repeat constructor.
  - exists true, s, []. rewrite app_nil_r. by split_and!.
Qed.

(** X16: while the queue holds a task whose [scheduled_time] does not read
    back (the tasks before it being readable), every cycle of the
    scheduler raises in its first step, after executing the due tasks
    before that task: the recurring sweep, the analysis and the save are
    never reached.  So, left to itself, the loop over any number of cycles
    returns with the queue, the recurring table, the patterns and the file
    as they were: no recurring task is ever queued or stamped and nothing
    is saved; and the loop never makes its sleep of 10 seconds (it logs
    the error and sleeps 60 seconds each time). *)
Theorem unreadable_timestamp_starves_scheduler (s : engine)
    (pre post : list dict) (bad : dict) (v : value) (e : exn) :
  task_queue s = pre ++ bad :: post →
  Forall well_timed pre →
  bad !! "scheduled_time" = Some v →
  fromisoformat v = inl e →
  (∀ env,
     cycle env s =
     Raise e (run_executions (c_clock env) (due_entries (c_now_queue env) 0 pre) s)) ∧
  ∀ envs, ∃ left s' new,
    _background_loop (λ _ s0, s0) envs s = Ok left s' ∧
    task_queue s' = task_queue s ∧
    recurring_tasks s' = recurring_tasks s ∧
    intent_patterns s' = intent_patterns s ∧
    intent_file s' = intent_file s ∧
    events s' = events s ++ new ∧
    Forall (λ ev, ev ≠ Sleep 10) new.
Proof.
  intros Hq Hpre Hbad Hv. split.
  { intros env. by eapply cycle_raises_on_timestamp. }
  intros envs. unfold _background_loop, bind, log_info, modify.
  destruct (loop_turns_starved pre bad post v e envs 0
              (emit (LogInfo MLoopStarted) s))
    as (left & s' & new & Hrun & Hq' & Hr' & Hp' & Hf' & Hev' & Hnew); try done.
  exists left, s', (LogInfo MLoopStarted :: new).
  split; [done|]. simpl in *. split_and!; try done.
  - by rewrite Hev', <- app_assoc.
  - by constructor.
Qed.

Lemma unreadable_timestamp_starves_scheduler_witness :
  let s := set_recurring_tasks [daily_cleanup]
             (set_task_queue [queue_a; queue_bad; queue_c] init) in
  (task_queue s = [queue_a] ++ queue_bad :: [queue_c] ∧
   Forall well_timed [queue_a] ∧
   queue_bad !! "scheduled_time" = Some (VStr "tomorrow") ∧
   fromisoformat (VStr "tomorrow") = inl ValueError) ∧
  (∀ env,
     cycle env s =
     Raise ValueError
       (run_executions (c_clock env) (due_entries (c_now_queue env) 0 [queue_a]) s)) ∧
  ∀ envs, ∃ left s' new,
    _background_loop (λ _ s0, s0) envs s = Ok left s' ∧
    task_queue s' = task_queue s ∧
    recurring_tasks s' = recurring_tasks s ∧
    intent_patterns s' = intent_patterns s ∧
    intent_file s' = intent_file s ∧
    events s' = events s ++ new ∧
    Forall (λ ev, ev ≠ Sleep 10) new.
Proof.
  intros s.
  assert (H1 : task_queue s = [queue_a] ++ queue_bad :: [queue_c]) by reflexivity.
  assert (H2 : Forall well_timed [queue_a]) by (repeat constructor).
  assert (H3 : queue_bad !! "scheduled_time" = Some (VStr "tomorrow")) by reflexivity.
  assert (H4 : fromisoformat (VStr "tomorrow") = inl ValueError) by reflexivity.
  split; [done|].
  exact (unreadable_timestamp_starves_scheduler s [queue_a] [queue_c] queue_bad
           (VStr "tomorrow") ValueError H1 H2 H3 H4).
Defined.
